(** * spotlightDlGo: a shallow embedding of [main.go] and its verified properties

    The program polls the Windows Spotlight selection API, filters the
    answers down to landscape images served over https, removes duplicates
    and downloads the images that are not yet on disk.

    Go strings are byte strings: they are modelled as [string] (a list of
    8-bit [ascii] characters).  The file system is a finite map from paths
    to file contents, the set [seen] of [main] is a [gset string].  What the
    network and the operating system answer is supplied by explicit oracle
    records, so that every function of the program is a total, executable
    function of its inputs and of those answers. *)

From Stdlib Require Import ZArith Ascii String List Bool Lia.
From stdpp Require Import base option gmap strings list fin_maps.

Local Open Scope string_scope.
Local Open Scope Z_scope.

(** ** Go's [strings] and [unicode/utf8] packages (the part the program uses) *)

Module GoStrings.

Definition byte_of (c : ascii) : Z := Z.of_N (N_of_ascii c).

Fixpoint sdrop (n : nat) (s : string) : string :=
  match n, s with
  | O, _ => s
  | S n', String _ s' => sdrop n' s'
  | S _, EmptyString => EmptyString
  end.

Fixpoint stake (n : nat) (s : string) : string :=
  match n, s with
  | O, _ => EmptyString
  | S n', String c s' => String c (stake n' s')
  | S _, EmptyString => EmptyString
  end.

Fixpoint srev_onto (s acc : string) : string :=
  match s with
  | EmptyString => acc
  | String c s' => srev_onto s' (String c acc)
  end.

Definition srev (s : string) : string := srev_onto s EmptyString.

(** [strings.HasPrefix]. *)
Fixpoint HasPrefix (s p : string) : bool :=
  match p, s with
  | EmptyString, _ => true
  | String c p', String d s' => if ascii_dec c d then HasPrefix s' p' else false
  | String _ _, EmptyString => false
  end.

(** [strings.HasSuffix]. *)
Definition HasSuffix (s p : string) : bool := HasPrefix (srev s) (srev p).

(** [strings.IndexByte]: the index of the first [c], [None] for Go's -1. *)
Fixpoint IndexByte (s : string) (c : ascii) : option nat :=
  match s with
  | EmptyString => None
  | String d s' =>
      if ascii_dec d c then Some O
      else match IndexByte s' c with Some i => Some (S i) | None => None end
  end.

(** [strings.LastIndexByte]-style search, used by [filepath.Base]. *)
Fixpoint LastIndexByte (s : string) (c : ascii) : option nat :=
  match s with
  | EmptyString => None
  | String d s' =>
      match LastIndexByte s' c with
      | Some i => Some (S i)
      | None => if ascii_dec d c then Some O else None
      end
  end.

(** [strings.Index]: the index of the first occurrence of [sep]. *)
Fixpoint Index (s sep : string) : option nat :=
  if HasPrefix s sep then Some O
  else match s with
       | EmptyString => None
       | String _ s' => match Index s' sep with Some i => Some (S i) | None => None end
       end.

(** [strings.Contains]. *)
Definition Contains (s sub : string) : bool :=
  match Index s sub with Some _ => true | None => false end.

(** [strings.Cut]: text before and after the first [sep]; the whole
    string and the empty string when [sep] does not occur. *)
Definition Cut (s sep : string) : string * string * bool :=
  match Index s sep with
  | Some i => (stake i s, sdrop (i + String.length sep) s, true)
  | None => (s, EmptyString, false)
  end.

(** [strings.Count] for a one-byte separator. *)
Fixpoint CountByte (s : string) (c : ascii) : nat :=
  match s with
  | EmptyString => O
  | String d s' => (if ascii_dec d c then 1 else 0)%nat + CountByte s' c
  end.

(** *** UTF-8 decoding, as [utf8.DecodeRuneInString] does it *)

Definition RuneError : Z := 0xFFFD.
Definition RuneSelf : Z := 0x80.

(** The entry of the table [first] for a leading byte: [None] for an
    invalid leading byte, otherwise the length of the sequence and the
    range accepted for the second byte.  ASCII bytes are handled by the
    caller. *)
Definition first (b : Z) : option (nat * Z * Z) :=
  if b <? 0xC2 then None
  else if b <=? 0xDF then Some (2%nat, 0x80, 0xBF)
  else if b =? 0xE0 then Some (3%nat, 0xA0, 0xBF)
  else if b <=? 0xEC then Some (3%nat, 0x80, 0xBF)
  else if b =? 0xED then Some (3%nat, 0x80, 0x9F)
  else if b <=? 0xEF then Some (3%nat, 0x80, 0xBF)
  else if b =? 0xF0 then Some (4%nat, 0x90, 0xBF)
  else if b <=? 0xF3 then Some (4%nat, 0x80, 0xBF)
  else if b =? 0xF4 then Some (4%nat, 0x80, 0x8F)
  else None.

Definition cont (b : Z) : bool := (0x80 <=? b) && (b <=? 0xBF).

Definition DecodeRuneInString (s : string) : Z * nat :=
  match s with
  | EmptyString => (RuneError, 0%nat)
  | String c0 rest =>
      let s0 := byte_of c0 in
      if s0 <? RuneSelf then (s0, 1%nat)
      else match first s0 with
           | None => (RuneError, 1%nat)
           | Some (sz, lo, hi) =>
               if (String.length s <? sz)%nat then (RuneError, 1%nat)
               else match rest with
                    | EmptyString => (RuneError, 1%nat)
                    | String c1 rest1 =>
                        let s1 := byte_of c1 in
                        if (s1 <? lo) || (hi <? s1) then (RuneError, 1%nat)
                        else if (sz <=? 2)%nat then
                          (Z.lor (Z.shiftl (Z.land s0 0x1F) 6) (Z.land s1 0x3F), 2%nat)
                        else match rest1 with
                             | EmptyString => (RuneError, 1%nat)
                             | String c2 rest2 =>
                                 let s2 := byte_of c2 in
                                 if negb (cont s2) then (RuneError, 1%nat)
                                 else if (sz <=? 3)%nat then
                                   (Z.lor (Z.lor (Z.shiftl (Z.land s0 0x0F) 12)
                                                 (Z.shiftl (Z.land s1 0x3F) 6))
                                          (Z.land s2 0x3F), 3%nat)
                                 else match rest2 with
                                      | EmptyString => (RuneError, 1%nat)
                                      | String c3 _ =>
                                          let s3 := byte_of c3 in
                                          if negb (cont s3) then (RuneError, 1%nat)
                                          else
                                            (Z.lor (Z.lor (Z.lor (Z.shiftl (Z.land s0 0x07) 18)
                                                                 (Z.shiftl (Z.land s1 0x3F) 12))
                                                          (Z.shiftl (Z.land s2 0x3F) 6))
                                                   (Z.land s3 0x3F), 4%nat)
                                      end
                             end
                    end
           end
  end.

(** [utf8.RuneStart]: the byte is not a continuation byte. *)
Definition RuneStart (b : Z) : bool := negb (Z.land b 0xC0 =? 0x80).

(** The backwards scan of [utf8.DecodeLastRuneInString]: [r] holds the
    bytes before the last one in reverse order, [k] counts the bytes
    already stepped over; the scan visits at most three bytes (down to
    [lim = end - UTFMax]) and returns how many bytes the candidate rune
    spans when it meets a rune start. *)
Fixpoint scan_start (r : string) (k budget : nat) : option nat :=
  match budget, r with
  | S budget', String c r' =>
      if RuneStart (byte_of c) then Some (S k) else scan_start r' (S k) budget'
  | _, _ => None
  end.

Definition DecodeLastRuneInString (s : string) : Z * nat :=
  match srev s with
  | EmptyString => (RuneError, 0%nat)
  | String c r =>
      let b := byte_of c in
      if b <? RuneSelf then (b, 1%nat)
      else match scan_start r 1 3 with
           | None => (RuneError, 1%nat)
           | Some n =>
               let '(ru, size) := DecodeRuneInString (sdrop (String.length s - n) s) in
               if (size =? n)%nat then (ru, size) else (RuneError, 1%nat)
           end
  end.

(** [unicode.IsSpace]. *)
Definition IsSpace (r : Z) : bool :=
  if r <=? 0xFF then
    ((0x09 <=? r) && (r <=? 0x0D)) || (r =? 0x20) || (r =? 0x85) || (r =? 0xA0)
  else
    (r =? 0x1680) || ((0x2000 <=? r) && (r <=? 0x200A)) || (r =? 0x2028)
    || (r =? 0x2029) || (r =? 0x202F) || (r =? 0x205F) || (r =? 0x3000).

(** [strings.TrimLeftFunc s unicode.IsSpace]; [fuel] bounds the number of
    runes and is taken to be the length of the string. *)
Fixpoint trimLeft (fuel : nat) (s : string) : string :=
  match fuel with
  | O => s
  | S fuel' =>
      let '(r, size) := DecodeRuneInString s in
      match size with
      | O => s
      | _ => if IsSpace r then trimLeft fuel' (sdrop size s) else s
      end
  end.

(** [strings.TrimRightFunc s unicode.IsSpace]. *)
Fixpoint trimRight (fuel : nat) (s : string) : string :=
  match fuel with
  | O => s
  | S fuel' =>
      let '(r, size) := DecodeLastRuneInString s in
      match size with
      | O => s
      | _ => if IsSpace r then trimRight fuel' (stake (String.length s - size) s) else s
      end
  end.

(** [strings.TrimSpace].  Go first strips ASCII white space byte by byte
    and falls back to [TrimFunc] at the first non-ASCII byte; an ASCII
    byte decodes to itself, so both paths compute the function below. *)
Definition TrimSpace (s : string) : string :=
  let l := trimLeft (String.length s) s in
  trimRight (String.length l) l.

End GoStrings.

Import GoStrings.

(** ** Go's [net/url] package: [Parse], [QueryEscape], [Values.Encode], [URL.String]

    The model follows the package as of Go 1.22: the fragment is cut off
    first, control bytes are refused, the scheme is split off, then the
    query, then the authority; path, fragment and host are percent-decoded
    and a malformed escape is an error. *)

Module NetUrl.


Definition between (lo hi c : ascii) : bool :=
  (byte_of lo <=? byte_of c) && (byte_of c <=? byte_of hi).

Definition is_alpha (c : ascii) : bool := between "a" "z" c || between "A" "Z" c.
Definition is_digit (c : ascii) : bool := between "0" "9" c.

Definition one_of (cs : string) (c : ascii) : bool :=
  match IndexByte cs c with Some _ => true | None => false end.

Definition ishex (c : ascii) : bool :=
  is_digit c || between "a" "f" c || between "A" "F" c.

Definition unhex (c : ascii) : Z :=
  if is_digit c then byte_of c - byte_of "0"
  else if between "a" "f" c then byte_of c - byte_of "a" + 10
  else if between "A" "F" c then byte_of c - byte_of "A" + 10
  else 0.

Definition upperhex (n : Z) : ascii :=
  if n <? 10 then ascii_of_N (Z.to_N (byte_of "0" + n))
  else ascii_of_N (Z.to_N (byte_of "A" + (n - 10))).

Inductive encoding : Type :=
| encodePath | encodeUserPassword | encodeHost | encodeZone
| encodeQueryComponent | encodeFragment.

Definition is_host_mode (m : encoding) : bool :=
  match m with encodeHost | encodeZone => true | _ => false end.

(** [shouldEscape]. *)
Definition shouldEscape (c : ascii) (mode : encoding) : bool :=
  if is_alpha c || is_digit c then false
  else if is_host_mode mode && (one_of "!$&'()*+,;=:[]<>" c || (byte_of c =? 34))
  then false  (* 34 is the double quote *)
  else if one_of "-_.~" c then false
  else if one_of "$&+,/:;=?@" c then
    match mode with
    | encodePath => if ascii_dec c "?" then true else false
    | encodeUserPassword => one_of "@/?:" c
    | encodeQueryComponent => true
    | encodeFragment => false
    | encodeHost | encodeZone => true
    end
  else if (match mode with encodeFragment => true | _ => false end)
          && one_of "!()*" c then false
  else true.

(** [escape]: every byte that must be escaped becomes [%XX], except that a
    space in a query component becomes [+]. *)
Fixpoint escape (s : string) (mode : encoding) : string :=
  match s with
  | EmptyString => EmptyString
  | String c s' =>
      if shouldEscape c mode then
        if ascii_dec c " " then
          match mode with
          | encodeQueryComponent => String "+" (escape s' mode)
          | _ => String "%" (String "2" (String "0" (escape s' mode)))
          end
        else
          String "%" (String (upperhex (Z.shiftr (byte_of c) 4))
                        (String (upperhex (Z.land (byte_of c) 15)) (escape s' mode)))
      else String c (escape s' mode)
  end.

Definition QueryEscape (s : string) : string := escape s encodeQueryComponent.

(** [unescape]: [None] stands for an [EscapeError] or [InvalidHostError].
    [fuel] is the length of the input. *)
Fixpoint unescape_go (fuel : nat) (s : string) (mode : encoding) : option string :=
  match fuel with
  | O => match s with EmptyString => Some EmptyString | _ => None end
  | S fuel' =>
      match s with
      | EmptyString => Some EmptyString
      | String "%" (String h1 (String h2 rest)) =>
          if negb (ishex h1 && ishex h2) then None
          else
            let v := Z.lor (Z.shiftl (unhex h1) 4) (unhex h2) in
            let is25 := (v =? 0x25) && (if ascii_dec h1 "2" then true else false) in
            let bad :=
              match mode with
              | encodeHost => (unhex h1 <? 8) && negb is25
              | encodeZone =>
                  negb is25 && negb (v =? 0x20)
                  && shouldEscape (ascii_of_N (Z.to_N v)) encodeHost
              | _ => false
              end in
            if bad then None
            else match unescape_go fuel' rest mode with
                 | Some r => Some (String (ascii_of_N (Z.to_N v)) r)
                 | None => None
                 end
      | String "%" _ => None
      | String c rest =>
          if is_host_mode mode && (byte_of c <? 0x80) && shouldEscape c encodeHost
          then None
          else
            let c' := match mode with
                      | encodeQueryComponent => if ascii_dec c "+" then " "%char else c
                      | _ => c
                      end in
            match unescape_go fuel' rest mode with
            | Some r => Some (String c' r)
            | None => None
            end
      end
  end.

Definition unescape (s : string) (mode : encoding) : option string :=
  unescape_go (String.length s) s mode.

Fixpoint all_bytes (p : ascii -> bool) (s : string) : bool :=
  match s with
  | EmptyString => true
  | String c s' => p c && all_bytes p s'
  end.

Definition stringContainsCTLByte (s : string) : bool :=
  negb (all_bytes (fun c => negb ((byte_of c <? 0x20) || (byte_of c =? 0x7f))) s).

(** [getScheme]: [None] is the error "missing protocol scheme". *)
Fixpoint getScheme_go (i : nat) (s whole : string) : option (string * string) :=
  match s with
  | EmptyString => Some (EmptyString, whole)
  | String c s' =>
      if is_alpha c then getScheme_go (S i) s' whole
      else if is_digit c || one_of "+-." c then
        match i with O => Some (EmptyString, whole) | _ => getScheme_go (S i) s' whole end
      else if ascii_dec c ":" then
        match i with O => None | _ => Some (stake i whole, s') end
      else Some (EmptyString, whole)
  end.

Definition getScheme (rawURL : string) : option (string * string) :=
  getScheme_go O rawURL rawURL.

Definition lower (c : ascii) : ascii :=
  if between "A" "Z" c then ascii_of_N (Z.to_N (byte_of c + 32)) else c.

Fixpoint ToLower (s : string) : string :=
  match s with
  | EmptyString => EmptyString
  | String c s' => String (lower c) (ToLower s')
  end.

Definition validOptionalPort (port : string) : bool :=
  match port with
  | EmptyString => true
  | String c digits => (if ascii_dec c ":" then true else false) && all_bytes is_digit digits
  end.

Definition validUserinfo (s : string) : bool :=
  all_bytes (fun c => is_alpha c || is_digit c || one_of "-._:~!$&'()*+,;=%@" c) s.

(** [parseHost]. *)
Definition parseHost (host : string) : option string :=
  if HasPrefix host "[" then
    match LastIndexByte host "]" with
    | None => None
    | Some i =>
        if negb (validOptionalPort (sdrop (S i) host)) then None
        else match Index (stake i host) "%25" with
             | Some zone =>
                 match unescape (stake zone host) encodeHost,
                       unescape (stake (i - zone) (sdrop zone host)) encodeZone,
                       unescape (sdrop i host) encodeHost with
                 | Some h1, Some h2, Some h3 => Some (h1 ++ h2 ++ h3)%string
                 | _, _, _ => None
                 end
             | None => unescape host encodeHost
             end
    end
  else
    let port_ok := match LastIndexByte host ":" with
                   | Some i => validOptionalPort (sdrop i host)
                   | None => true
                   end in
    if port_ok then unescape host encodeHost else None.

Definition Userinfo : Type := (string * option string)%type.

(** [parseAuthority]. *)
Definition parseAuthority (authority : string) : option (option Userinfo * string) :=
  match LastIndexByte authority "@" with
  | None => match parseHost authority with
            | Some h => Some (None, h)
            | None => None
            end
  | Some i =>
      match parseHost (sdrop (S i) authority) with
      | None => None
      | Some h =>
          let userinfo := stake i authority in
          if negb (validUserinfo userinfo) then None
          else if negb (Contains userinfo ":") then
            match unescape userinfo encodeUserPassword with
            | Some u => Some (Some (u, None), h)
            | None => None
            end
          else
            let '(username, password, _) := Cut userinfo ":" in
            match unescape username encodeUserPassword,
                  unescape password encodeUserPassword with
            | Some u, Some p => Some (Some (u, Some p), h)
            | _, _ => None
            end
      end
  end.

Record URL : Type := mkURL {
  Scheme : string;
  Opaque : string;
  User : option Userinfo;
  Host : string;
  Path : string;
  RawPath : string;
  OmitHost : bool;
  ForceQuery : bool;
  RawQuery : string;
  Fragment : string;
  RawFragment : string
}.

Definition empty_URL : URL :=
  mkURL "" "" None "" "" "" false false "" "" "".

Definition string_eqb (a b : string) : bool :=
  if string_dec a b then true else false.

(** [parse rawURL false], the part of [Parse] before the fragment is set. *)
Definition parse (rawURL : string) : option URL :=
  if stringContainsCTLByte rawURL then None
  else if string_eqb rawURL "*" then
    Some (mkURL "" "" None "" "*" "" false false "" "" "")
  else
    match getScheme rawURL with
    | None => None
    | Some (scheme0, rest0) =>
        let scheme := ToLower scheme0 in
        let '(rest, rawQuery, forceQuery) :=
          if HasSuffix rest0 "?" && (CountByte rest0 "?" =? 1)%nat
          then (stake (String.length rest0 - 1) rest0, EmptyString, true)
          else let '(r, q, _) := Cut rest0 "?" in (r, q, false) in
        let has_scheme := negb (string_eqb scheme "") in
        if negb (HasPrefix rest "/") && has_scheme then
          Some (mkURL scheme rest None "" "" "" false forceQuery rawQuery "" "")
        else if negb (HasPrefix rest "/")
                && Contains (fst (fst (Cut rest "/"))) ":" then None
        else
          let parsed_authority :=
            if (has_scheme || negb (HasPrefix rest "///")) && HasPrefix rest "//" then
              let authority0 := sdrop 2 rest in
              let '(authority, rest') :=
                match Index authority0 "/" with
                | Some i => (stake i authority0, sdrop i authority0)
                | None => (authority0, EmptyString)
                end in
              match parseAuthority authority with
              | Some (user, host) => Some (user, host, rest', false)
              | None => None
              end
            else Some (None, EmptyString, rest, has_scheme && HasPrefix rest "/") in
          match parsed_authority with
          | None => None
          | Some (user, host, rest', omitHost) =>
              match unescape rest' encodePath with
              | None => None
              | Some path =>
                  let rawPath :=
                    if string_eqb rest' (escape path encodePath) then EmptyString else rest' in
                  Some (mkURL scheme "" user host path rawPath omitHost forceQuery
                              rawQuery "" "")
              end
          end
    end.

(** [url.Parse]: [None] stands for a non-nil error. *)
Definition Parse (rawURL : string) : option URL :=
  let '(u, frag, _) := Cut rawURL "#" in
  match parse u with
  | None => None
  | Some url =>
      if string_eqb frag "" then Some url
      else match unescape frag encodeFragment with
           | None => None
           | Some f =>
               let rawFrag :=
                 if string_eqb frag (escape f encodeFragment) then EmptyString else frag in
               Some (mkURL (Scheme url) (Opaque url) (User url) (Host url) (Path url)
                           (RawPath url) (OmitHost url) (ForceQuery url) (RawQuery url)
                           f rawFrag)
           end
  end.

(** [validEncoded]. *)
Definition validEncoded (s : string) (mode : encoding) : bool :=
  all_bytes (fun c => one_of "!$&'()*+,;=:@[]%" c || negb (shouldEscape c mode)) s.

(** [URL.EscapedPath]. *)
Definition EscapedPath (u : URL) : string :=
  let keep_raw :=
    negb (string_eqb (RawPath u) "") && validEncoded (RawPath u) encodePath
    && match unescape (RawPath u) encodePath with
       | Some p => string_eqb p (Path u)
       | None => false
       end in
  if keep_raw then RawPath u
  else if string_eqb (Path u) "*" then "*"
  else escape (Path u) encodePath.

(** [URL.EscapedFragment]. *)
Definition EscapedFragment (u : URL) : string :=
  let keep_raw :=
    negb (string_eqb (RawFragment u) "") && validEncoded (RawFragment u) encodeFragment
    && match unescape (RawFragment u) encodeFragment with
       | Some f => string_eqb f (Fragment u)
       | None => false
       end in
  if keep_raw then RawFragment u else escape (Fragment u) encodeFragment.

Definition Userinfo_String (ui : Userinfo) : string :=
  match ui with
  | (name, Some pw) =>
      escape name encodeUserPassword ++ ":" ++ escape pw encodeUserPassword
  | (name, None) => escape name encodeUserPassword
  end.

Definition is_some {A} (o : option A) : bool :=
  match o with Some _ => true | None => false end.

(** [URL.String]: the pieces are appended in the order the builder
    receives them. *)
Definition String_ (u : URL) : string :=
  let scheme_part :=
    if string_eqb (Scheme u) "" then "" else Scheme u ++ ":" in
  let body :=
    if negb (string_eqb (Opaque u) "") then scheme_part ++ Opaque u
    else
      let host_nonempty := negb (string_eqb (Host u) "") in
      let authority_part :=
        if negb (string_eqb (Scheme u) "") || host_nonempty || is_some (User u) then
          if OmitHost u && negb host_nonempty && negb (is_some (User u)) then ""
          else
            (if host_nonempty || negb (string_eqb (Path u) "") || is_some (User u)
             then "//" else "")
            ++ match User u with Some ui => Userinfo_String ui ++ "@" | None => "" end
            ++ (if host_nonempty then escape (Host u) encodeHost else "")
        else "" in
      let path := EscapedPath u in
      let so_far := scheme_part ++ authority_part in
      let slash :=
        if negb (string_eqb path "") && negb (HasPrefix path "/") && host_nonempty
        then "/" else "" in
      let dot_slash :=
        if string_eqb (so_far ++ slash) ""
           && Contains (fst (fst (Cut path "/"))) ":" then "./" else "" in
      so_far ++ slash ++ dot_slash ++ path in
  body
  ++ (if ForceQuery u || negb (string_eqb (RawQuery u) "") then "?" ++ RawQuery u else "")
  ++ (if string_eqb (Fragment u) "" then "" else "#" ++ EscapedFragment u).

(** [url.Values] is a Go map from keys to lists of values.  [Encode]
    sorts the keys, so the order in which the map is enumerated does not
    show in its result; the map is given here as the list of its entries. *)
Definition Values : Type := list (string * list string).

Fixpoint insert_sorted (kv : string * list string) (l : Values) : Values :=
  match l with
  | [] => [kv]
  | kv' :: l' =>
      if String.leb (fst kv) (fst kv') then kv :: l else kv' :: insert_sorted kv l'
  end.

Definition sort_keys (v : Values) : Values := fold_right insert_sorted [] v.

Definition encode_pairs (kv : string * list string) : list string :=
  map (fun val => QueryEscape (fst kv) ++ "=" ++ QueryEscape val) (snd kv).

Fixpoint join_amp (l : list string) : string :=
  match l with
  | [] => ""
  | [x] => x
  | x :: l' => x ++ "&" ++ join_amp l'
  end.

(** [Values.Encode]. *)
Definition Encode (v : Values) : string :=
  join_amp (concat (map encode_pairs (sort_keys v))).

Definition set_RawQuery (u : URL) (q : string) : URL :=
  mkURL (Scheme u) (Opaque u) (User u) (Host u) (Path u) (RawPath u) (OmitHost u)
        (ForceQuery u) q (Fragment u) (RawFragment u).

End NetUrl.

(** ** Go's [path/filepath] package, for the slash-separated paths of Unix *)

Module FilePath.

(** The string without its trailing slashes. *)
Fixpoint strip_trailing (r : string) : string :=
  match r with
  | String "/" r' => strip_trailing r'
  | _ => r
  end.

(** The text before the first slash. *)
Fixpoint until_slash (r : string) : string :=
  match r with
  | EmptyString => EmptyString
  | String c r' => if ascii_dec c "/" then EmptyString else String c (until_slash r')
  end.

(** [filepath.Base]: the last element of the path; trailing slashes are
    removed first, an empty path gives ".", a path of slashes gives "/".
    The scan works on the reversed string, as the Go loops work from the
    end of the path. *)
Definition Base (path : string) : string :=
  match path with
  | EmptyString => "."
  | _ =>
      let last := srev (until_slash (strip_trailing (srev path))) in
      match last with
      | EmptyString => "/"
      | _ => last
      end
  end.

End FilePath.

(** ** The program: data *)

(** The errors the program can return, one constructor per place where
    [main.go] produces or forwards an error. *)
Inductive error : Type :=
| ErrNewRequest                (* http.NewRequestWithContext *)
| ErrTransport                 (* client.Do *)
| ErrHTTP (status : Z)         (* fmt.Errorf("http %d", resp.StatusCode) *)
| ErrDecode                    (* json.NewDecoder(resp.Body).Decode *)
| ErrCreate                    (* os.Create *)
| ErrCopy                      (* io.Copy *)
| ErrClose                     (* f.Close *)
| ErrStat                      (* os.Stat *)
| ErrSizeMismatch              (* errors.New("size mismatch") *)
| ErrRename.                   (* os.Rename *)

Inductive result (A : Type) : Type :=
| Ok (a : A)
| Err (e : error).
Arguments Ok {A} a.
Arguments Err {A} e.

(** The type declarations of [main.go]; a Go pointer that may be nil is an
    [option]. *)
Record imageObject : Type := { Asset : string }.

Record ad : Type := {
  IconHoverText : string;
  ad_Title : string;
  ad_Copyright : string;
  Landscape : option imageObject
}.

Record adEnvelope : Type := { Ad : option ad }.

(** [root]: only the strings [batchrsp.items[i].item] are kept. *)
Record root : Type := { Items : list string }.

Record spotImage : Type := {
  URL : string;
  FileName : string;
  Title : string;
  Copyright : string
}.

(** What a server sends as a body: the bytes that arrive, and whether the
    stream then ends with a transport error instead of the end of file. *)
Record body_stream : Type := { bs_bytes : string; bs_broken : bool }.

Record Response : Type := {
  StatusCode : Z;
  ContentLength : Z;
  Body : body_stream
}.

(** The answer of [client.Do]. *)
Inductive do_result : Type :=
| DoErr
| DoResp (resp : Response).

(** The failures the operating system can inject into one download. *)
Record os_faults : Type := {
  create_fails : bool;
  write_limit : option nat;     (* the write fails after that many bytes *)
  close_fails : bool;
  stat_fails : bool;
  rename_fails : bool
}.

Definition no_faults : os_faults :=
  {| create_fails := false; write_limit := None; close_fails := false;
     stat_fails := false; rename_fails := false |}.

(** The file system: a finite map from paths to file contents. *)
Abbreviation FS := (gmap string string).

(** ** The program: pure helpers *)

Definition userAgent : string := "spotlightdl-go/1.0".

Definition api_base : string := "https://fd.api.iris.microsoft.com/v4/api/selection".

(** The body of [buildAPIURL] after the call of [url.Parse], whose result
    is [parsed]. *)
Definition buildAPIURL_from (parsed : option NetUrl.URL) (country locale : string)
  : string * option error :=
  match parsed with
  | None => ("", None)
  | Some u =>
      let q : NetUrl.Values :=
        [("placement", ["88000820"]); ("bcnt", ["4"]); ("country", [country]);
         ("locale", [locale]); ("fmt", ["json"])] in
      (NetUrl.String_ (NetUrl.set_RawQuery u (NetUrl.Encode q)), None)
  end.

Definition buildAPIURL (country locale : string) : string * option error :=
  buildAPIURL_from (NetUrl.Parse api_base) country locale.

Definition firstNonEmpty (a b : string) : string :=
  if negb (NetUrl.string_eqb (TrimSpace a) "") then a else TrimSpace b.

Definition default_ext : string := ".jpg".

Definition fileNameFromURL (u : string) : string :=
  match NetUrl.Parse u with
  | None => ""
  | Some pu =>
      let base := FilePath.Base (NetUrl.Path pu) in
      let base := match IndexByte base "?" with
                  | Some i => stake i base
                  | None => base
                  end in
      if Contains base "." then base else base ++ default_ext
  end.

(** [exists]: whether [os.Stat(p)] succeeds.  It does on a regular file,
    which is an entry of [fs], and on a directory, the output directory for
    one, or on any other thing that is there: those paths are [dirs]. *)
Definition exists_ (dirs : gset string) (fs : FS) (p : string) : bool :=
  bool_decide (p ∈ dirs) || match fs !! p with Some _ => true | None => false end.

(** [dedupe]: the loop over [in], with the map [seen] and the slice [out]
    as accumulators. *)
Fixpoint dedupe_loop (l : list spotImage) (seen : gset string) (out : list spotImage)
  : list spotImage :=
  match l with
  | [] => out
  | im :: l' =>
      if NetUrl.string_eqb (URL im) "" then dedupe_loop l' seen out
      else if bool_decide (URL im ∈ seen) then dedupe_loop l' seen out
      else dedupe_loop l' ({[URL im]} ∪ seen) (out ++ [im])
  end.

Definition dedupe (l : list spotImage) : list spotImage := dedupe_loop l ∅ [].

(** ** The program: [download] *)

Definition tmp_of (dst : string) : string := dst ++ ".part".

(** [io.Copy(f, resp.Body)]: the bytes that reach the file, and whether the
    copy returned an error (the body broke off, or a write failed). *)
Definition io_Copy (body : body_stream) (faults : os_faults) : string * bool :=
  match write_limit faults with
  | Some n =>
      if (n <? String.length (bs_bytes body))%nat then (stake n (bs_bytes body), true)
      else (bs_bytes body, bs_broken body)
  | None => (bs_bytes body, bs_broken body)
  end.

(** [download]: [reply] is what [client.Do] answers for [src], [faults] what
    the operating system does during this call.  [os.Create] truncates or
    creates the file, [os.Remove] deletes it (the program ignores its
    result), [os.Rename] moves the file over the destination or, when it
    fails, changes nothing. *)
Definition download (reply : do_result) (faults : os_faults) (fs : FS) (src dst : string)
  : FS * option error :=
  match NetUrl.Parse src with
  | None => (fs, Some ErrNewRequest)
  | Some _ =>
      match reply with
      | DoErr => (fs, Some ErrTransport)
      | DoResp resp =>
          if negb (StatusCode resp =? 200) then (fs, Some (ErrHTTP (StatusCode resp)))
          else
            let expected : option Z :=
              if 0 <? ContentLength resp then Some (ContentLength resp) else None in
            let tmp := tmp_of dst in
            if create_fails faults then (fs, Some ErrCreate)
            else
              let fs1 : FS := <[tmp := ""]> fs in
              let '(written, copyErr) := io_Copy (Body resp) faults in
              let fs2 : FS := <[tmp := written]> fs1 in
              if copyErr then (delete tmp fs2, Some ErrCopy)
              else if close_fails faults then (delete tmp fs2, Some ErrClose)
              else
                let checked : option error :=
                  match expected with
                  | Some n =>
                      if stat_fails faults then Some ErrStat
                      else if negb (Z.of_nat (String.length written) =? n)
                           then Some ErrSizeMismatch
                           else None
                  | None => None
                  end in
                match checked with
                | Some e => (delete tmp fs2, Some e)
                | None =>
                    if rename_fails faults then (fs2, Some ErrRename)
                    else (<[dst := written]> (delete tmp fs2), None)
                end
      end
  end.

(** ** The program: [fetchOnce] and [main] *)

Inductive event : Type :=
| EvFetch (round : nat)
| EvDownload (src dst : string)          (* a call of [download] *)
| EvSkipExisting (path : string)         (* "skip existing: ..." when verbose *)
| EvDownloadFailed (url : string) (e : error)
| EvPrintPath (path : string)            (* fmt.Println(path) *)
| EvSleep                                (* time.Sleep(500 * time.Millisecond) *)
| EvDone (totalNew : Z).                 (* "done. new=..." when verbose *)

Inductive exit : Type :=
| ExitOK                                 (* main returns: status 0 *)
| ExitFatal (e : error).                 (* fatal(err): os.Exit(1) *)

Definition exit_status (x : exit) : Z :=
  match x with ExitOK => 0 | ExitFatal _ => 1 end.

(** What the outside world answers during one run: the API's answer in
    each round, each asset server's answer, and the faults of the
    operating system while an asset is stored.  [main] requests an asset
    at most once in a run, so the last two are indexed by the asset's URL.
    [dirs] are the paths of the disk that are there without being regular
    files: the directories, among them the output directory. *)
Record world : Type := {
  api_reply : nat -> string -> do_result;
  asset_reply : string -> do_result;
  asset_faults : string -> os_faults;
  dirs : gset string
}.

Record config : Type := {
  outDir : string;
  locale : string;
  country : string;
  verbose : bool
}.

(** The variables of [main]'s loop, with the file system and the log of
    what the run did. *)
Record state : Type := {
  seen : gset string;
  emptyRounds : nat;
  totalNew : Z;
  files : FS;
  trace : list event
}.

Definition maxEmptyRounds : nat := 50.

(** [totalNew] is a Go [int]: 64 bits, two's complement. *)
Definition wrap_int (z : Z) : Z := (z + 2^63) mod 2^64 - 2^63.

Section Program.

(** [encoding/json] and [filepath.Join] are taken as they are: the outer
    decoder reads the response body, the inner one a single item. *)
Variable json_Decode_root : body_stream -> option root.
Variable json_Unmarshal_adEnvelope : string -> option adEnvelope.
Variable filepath_Join : string -> string -> string.

(** The body of the [for] loop of [fetchOnce] for one envelope that was
    unmarshalled: the descriptor appended to [out], if any. *)
Definition image_of_envelope (env : adEnvelope) : option spotImage :=
  match Ad env with
  | None => None
  | Some a =>
      match Landscape a with
      | None => None
      | Some img =>
          let asset := TrimSpace (Asset img) in
          if NetUrl.string_eqb asset "" || negb (HasPrefix asset "https://") then None
          else Some {| URL := asset;
                       FileName := fileNameFromURL asset;
                       Title := firstNonEmpty (IconHoverText a) (ad_Title a);
                       Copyright := ad_Copyright a |}
      end
  end.

(** One iteration of that loop. *)
Definition image_of_item (item : string) : option spotImage :=
  match json_Unmarshal_adEnvelope item with
  | None => None
  | Some env => image_of_envelope env
  end.

(** The loop: [out] collects the descriptors in the order of the items. *)
Fixpoint collect (items : list string) : list spotImage :=
  match items with
  | [] => []
  | it :: items' =>
      match image_of_item it with
      | Some im => im :: collect items'
      | None => collect items'
      end
  end.

(** [fetchOnce] from the decoding of the body on. *)
Definition parse_response (body : body_stream) : result (list spotImage) :=
  match json_Decode_root body with
  | None => Err ErrDecode
  | Some r => Ok (dedupe (collect (Items r)))
  end.

(** [fetchOnce] from the making of the request on: [net] is what
    [client.Do] answers for a request URL. *)
Definition fetch_url (net : string -> do_result) (reqURL : string)
  : result (list spotImage) :=
  match NetUrl.Parse reqURL with
  | None => Err ErrNewRequest
  | Some _ =>
      match net reqURL with
      | DoErr => Err ErrTransport
      | DoResp resp =>
          if negb (StatusCode resp =? 200) then Err (ErrHTTP (StatusCode resp))
          else parse_response (Body resp)
      end
  end.

(** [fetchOnce].  The error result of [buildAPIURL] is assigned to [err]
    and overwritten by the next statement without being read. *)
Definition fetchOnce (net : string -> do_result) (country locale : string)
  : result (list spotImage) :=
  let '(reqURL, _) := buildAPIURL country locale in
  fetch_url net reqURL.

Variable w : world.
Variable cfg : config.

Definition log (e : event) (st : state) : state :=
  {| seen := seen st; emptyRounds := emptyRounds st; totalNew := totalNew st;
     files := files st; trace := trace st ++ [e] |}.

Definition log_if (b : bool) (e : event) (st : state) : state :=
  if b then log e st else st.

(** The body of the inner loop of [main] for one descriptor; the second
    component is [newInRound]. *)
Definition process_image (acc : state * nat) (im : spotImage) : state * nat :=
  let '(st, newInRound) := acc in
  if bool_decide (URL im ∈ seen st) then (st, newInRound)
  else
    let st := {| seen := {[URL im]} ∪ seen st; emptyRounds := emptyRounds st;
                 totalNew := totalNew st; files := files st; trace := trace st |} in
    let name := fileNameFromURL (URL im) in
    if NetUrl.string_eqb name "" then (st, newInRound)
    else
      let path := filepath_Join (outDir cfg) name in
      if exists_ (dirs w) (files st) path then
        (log_if (verbose cfg) (EvSkipExisting path) st, newInRound)
      else
        let st := log (EvDownload (URL im) path) st in
        let '(fs', err) :=
          download (asset_reply w (URL im)) (asset_faults w (URL im))
                   (files st) (URL im) path in
        let st := {| seen := seen st; emptyRounds := emptyRounds st;
                     totalNew := totalNew st; files := fs'; trace := trace st |} in
        match err with
        | Some e => (log_if (verbose cfg) (EvDownloadFailed (URL im) e) st, newInRound)
        | None =>
            let st := log (EvPrintPath path) st in
            ({| seen := seen st; emptyRounds := emptyRounds st;
                totalNew := wrap_int (totalNew st + 1); files := files st;
                trace := trace st |}, S newInRound)
        end.

Definition process_images (st : state) (imgs : list spotImage) : state * nat :=
  fold_left process_image imgs (st, O).

(** The end of a round: the update of [emptyRounds]. *)
Definition end_round (acc : state * nat) : state :=
  let '(st, newInRound) := acc in
  match newInRound with
  | O => log EvSleep {| seen := seen st; emptyRounds := S (emptyRounds st);
                        totalNew := totalNew st; files := files st; trace := trace st |}
  | S _ => {| seen := seen st; emptyRounds := O; totalNew := totalNew st;
              files := files st; trace := trace st |}
  end.

(** One round of the outer loop: [Err] when [fetchOnce] fails. *)
Definition round (r : nat) (st : state) : result (state * nat) :=
  match fetchOnce (api_reply w r) (country cfg) (locale cfg) with
  | Err e => Err e
  | Ok imgs =>
      let acc := process_images (log (EvFetch r) st) imgs in
      Ok (end_round acc, snd acc)
  end.

(** The outer loop of [main]: [r] counts the rounds already run; [None]
    when [fuel] rounds were not enough to leave the loop. *)
Fixpoint poll_loop (fuel : nat) (r : nat) (st : state) : option (exit * state * nat) :=
  if (emptyRounds st <? maxEmptyRounds)%nat then
    match fuel with
    | O => None
    | S fuel' =>
        match round r st with
        | Err e => Some (ExitFatal e, st, r)
        | Ok (st', _) => poll_loop fuel' (S r) st'
        end
    end
  else Some (ExitOK, log_if (verbose cfg) (EvDone (totalNew st)) st, r).

Definition initial_state (fs : FS) : state :=
  {| seen := ∅; emptyRounds := O; totalNew := 0; files := fs; trace := [] |}.

(** [main] after the flags were read and the output directory was made:
    the exit, the final state and the number of rounds. *)
Definition main (fuel : nat) (fs : FS) : option (exit * state * nat) :=
  poll_loop fuel O (initial_state fs).

(** The destination path [main] computes for a descriptor. *)
Definition dest_path (im : spotImage) : string :=
  filepath_Join (outDir cfg) (fileNameFromURL (URL im)).

(** [n] rounds in a row, from round [r] in state [st], in which
    [fetchOnce] succeeds and nothing is downloaded. *)
Fixpoint quiet_rounds (n r : nat) (st : state) : bool :=
  match n with
  | O => true
  | S n' =>
      match round r st with
      | Ok (st', O) => quiet_rounds n' (S r) st'
      | _ => false
      end
  end.

(** Every descriptor the API offers in any round has no usable file
    name or a destination that exists in [fs0]. *)
Definition all_present (fs0 : FS) : Prop :=
  forall r imgs im,
    fetchOnce (api_reply w r) (country cfg) (locale cfg) = Ok imgs ->
    im ∈ imgs ->
    fileNameFromURL (URL im) = "" \/ exists_ (dirs w) fs0 (dest_path im) = true.

End Program.

(** ** Definitions in which the properties are stated *)

(** From here on [++] appends lists; strings are appended with [+:+]. *)
Local Open Scope list_scope.

(** The Deduplicator as the specification words it: entries with an empty
    URL are removed, and behind an entry every later entry with the same
    URL is removed. *)
Fixpoint first_occurrences (l : list spotImage) : list spotImage :=
  match l with
  | [] => []
  | im :: l' =>
      if NetUrl.string_eqb (URL im) "" then first_occurrences l'
      else im :: filter (λ x, URL x ≠ URL im) (first_occurrences l')
  end.

(** What an envelope must look like to yield the descriptor [d]. *)
Definition accepted_envelope (env : adEnvelope) (d : spotImage) : Prop :=
  ∃ a img,
    Ad env = Some a ∧ Landscape a = Some img
    ∧ TrimSpace (Asset img) ≠ ""
    ∧ HasPrefix (TrimSpace (Asset img)) "https://" = true
    ∧ d = {| URL := TrimSpace (Asset img);
             FileName := fileNameFromURL (TrimSpace (Asset img));
             Title := firstNonEmpty (IconHoverText a) (ad_Title a);
             Copyright := ad_Copyright a |}.

(** The failures the specification lists for the Downloader. *)
Definition listed_failure (e : error) : bool :=
  match e with
  | ErrTransport | ErrHTTP _ | ErrCopy | ErrSizeMismatch => true
  | _ => false
  end.

(** The last step of [download]: the rename, which is all that is left
    once the copy is complete and the size check has passed or is skipped. *)
Definition commit (faults : os_faults) (fs : FS) (dst written : string) : FS * option error :=
  if rename_fails faults then (<[tmp_of dst := written]> fs, Some ErrRename)
  else (<[dst := written]> (delete (tmp_of dst) fs), None).

(** The calls of [download] recorded in a log. *)
Definition is_download_call (e : event) : bool :=
  match e with EvDownload _ _ => true | _ => false end.

Definition download_calls (tr : list event) : list event :=
  List.filter is_download_call tr.

(** What the loop body leaves alone unless it downloads. *)
Definition same_but_seen_and_log (st st' : state) : Prop :=
  emptyRounds st' = emptyRounds st ∧ totalNew st' = totalNew st
  ∧ files st' = files st
  ∧ download_calls (trace st') = download_calls (trace st).

(** The files are those of [fs0] and nothing was downloaded. *)
Definition untouched (fs0 : FS) (st : state) : Prop :=
  files st = fs0 ∧ totalNew st = 0 ∧ download_calls (trace st) = [].

(** The file name as the specification words it, read off the text of an
    https URL: the path is what follows the authority, without fragment and
    query; its final segment is what follows the last slash. *)
Definition url_path_text (u : string) : string :=
  let no_fragment := (Cut u "#").1.1 in
  let no_query := (Cut no_fragment "?").1.1 in
  let after_scheme := sdrop 8 no_query in
  match IndexByte after_scheme "/" with
  | Some i => sdrop i after_scheme
  | None => ""
  end.

Definition final_segment (path : string) : string :=
  srev (FilePath.until_slash (srev path)).

Definition strip_query (seg : string) : string :=
  match IndexByte seg "?" with
  | Some i => stake i seg
  | None => seg
  end.

Definition with_default_ext (seg : string) : string :=
  if Contains seg "." then seg else seg +:+ default_ext.

Definition spec_fileName (u : string) : string :=
  with_default_ext (strip_query (final_segment (url_path_text u))).

(** The asset strings the Parser accepts. *)
Definition accepted_asset (u : string) : Prop :=
  u ≠ "" ∧ HasPrefix u "https://" = true.

(** ** Further definitions: the Downloader *)

(** Whether [download] goes through: the request can be made, the answer
    is a 200, nothing fails while the body is stored, and the declared
    length, if there is one, is the number of bytes that arrived. *)
Definition download_ok (reply : do_result) (faults : os_faults) (src : string) : bool :=
  match NetUrl.Parse src, reply with
  | Some _, DoResp resp =>
      (StatusCode resp =? 200)
      && negb (create_fails faults)
      && negb (io_Copy (Body resp) faults).2
      && negb (close_fails faults)
      && (if 0 <? ContentLength resp then
            negb (stat_fails faults)
            && (Z.of_nat (String.length (io_Copy (Body resp) faults).1) =? ContentLength resp)
          else true)
      && negb (rename_fails faults)
  | _, _ => false
  end.

(** ** Further definitions: the API URL *)

(** What [escape] writes for one byte. *)
Definition escape_byte (c : ascii) (mode : NetUrl.encoding) : string :=
  NetUrl.escape (String c "") mode.

(** The bytes [QueryEscape] can write: letters, digits, the four marks,
    and the percent and plus signs of the escapes. *)
Definition query_safe (c : ascii) : bool :=
  NetUrl.is_alpha c || NetUrl.is_digit c || NetUrl.one_of "-_.~%+" c.

(** The bytes of the query of the request URL: those [QueryEscape] writes
    and the two separators. *)
Definition tame (c : ascii) : bool :=
  query_safe c || (if ascii_dec c "&" then true else false)
  || (if ascii_dec c "=" then true else false).

(** ** Further definitions: the Poll Loop *)

(** The source URLs of the calls of [download] in a log, in their order. *)
Definition download_srcs (tr : list event) : list string :=
  omap (λ e, match e with EvDownload src _ => Some src | _ => None end) tr.

(** The paths printed by [fmt.Println(path)], in their order. *)
Definition printed_paths (tr : list event) : list string :=
  omap (λ e, match e with EvPrintPath path => Some path | _ => None end) tr.

(** What holds of the variables of [main] all along a run: a URL is handed
    to [download] at most once and only after it was put into [seen];
    [totalNew] is the number of printed paths, as a Go [int]; no path is
    printed without a download; [emptyRounds] stays within its ceiling. *)
Definition run_invariant (st : state) : Prop :=
  NoDup (download_srcs (trace st))
  ∧ (∀ u, u ∈ download_srcs (trace st) → u ∈ seen st)
  ∧ totalNew st = wrap_int (Z.of_nat (length (printed_paths (trace st))))
  ∧ (length (printed_paths (trace st)) ≤ length (download_srcs (trace st)))%nat
  ∧ (emptyRounds st ≤ maxEmptyRounds)%nat.

(** ** Further definitions: [resolveLocale] *)

(** [strings.Split s sep] for a separator of one byte: the pieces between
    the separators; a string without separator, the empty string too, is
    its own single piece. *)
Fixpoint Split (s : string) (sep : ascii) : list string :=
  match s with
  | EmptyString => [EmptyString]
  | String d s' =>
      if ascii_dec d sep then EmptyString :: Split s' sep
      else match Split s' sep with
           | piece :: pieces => String d piece :: pieces
           | [] => [String d EmptyString]
           end
  end.

(** [strings.SplitN(s, sep, 2)[0]] for a separator of one byte: the text
    before the first separator, the whole string when there is none. *)
Definition SplitN2_first (s : string) (sep : ascii) : string :=
  match IndexByte s sep with
  | Some i => stake i s
  | None => s
  end.

(** [strings.ReplaceAll s old new] for [old] and [new] of one byte each. *)
Fixpoint ReplaceAll (s : string) (old new : ascii) : string :=
  match s with
  | EmptyString => EmptyString
  | String d s' => String (if ascii_dec d old then new else d) (ReplaceAll s' old new)
  end.

Definition upper (c : ascii) : ascii :=
  if NetUrl.between "a" "z" c then ascii_of_N (Z.to_N (byte_of c - 32)) else c.

Fixpoint map_bytes (f : ascii → ascii) (s : string) : string :=
  match s with
  | EmptyString => EmptyString
  | String c s' => String (f c) (map_bytes f s')
  end.

(** [strings.ToUpper]: a string of ASCII bytes has its letters a-z
    replaced; any other string goes through [strings.Map(unicode.ToUpper)],
    which is taken as it is ([unicode_upper]). *)
Definition ToUpper (unicode_upper : string → string) (s : string) : string :=
  if NetUrl.all_bytes (λ c, byte_of c <? RuneSelf) s then map_bytes upper s
  else unicode_upper s.

(** [resolveLocale]: [LANG] is the value of [os.Getenv("LANG")]; the
    result is the pair (locale, country). *)
Definition resolveLocale (unicode_upper : string → string) (LANG spec : string)
  : string * string :=
  let from_env :=
    if NetUrl.string_eqb LANG "" then ("en-US", "US")
    else
      let lang := SplitN2_first LANG "." in
      let lang := ReplaceAll lang "_" "-" in
      match Split lang "-" with
      | [_; region] => (lang, ToUpper unicode_upper region)
      | _ => (lang, "US")
      end in
  if negb (NetUrl.string_eqb spec "") then
    match Split spec "-" with
    | [_; region] => (spec, ToUpper unicode_upper region)
    | _ => from_env
    end
  else from_env.

(** The destination paths of the calls of [download] in a log. *)
Definition download_dsts (tr : list event) : list string :=
  omap (λ e, match e with EvDownload _ dst => Some dst | _ => None end) tr.

(** [p] is neither a destination of a download of the log nor the
    temporary file of one. *)
Definition not_a_target (tr : list event) (p : string) : Prop :=
  ∀ d, d ∈ download_dsts tr → p ≠ d ∧ p ≠ tmp_of d.

(** The files that are not targets of a download are those of [fs0]. *)
Definition others_untouched (fs0 : FS) (st : state) : Prop :=
  ∀ p, not_a_target (trace st) p → files st !! p = fs0 !! p.

(** ** Further definitions: a run after a run *)

(** The destination path [main] computes for a URL. *)
Definition dest_of_URL (join : string → string → string) (cfg : config) (u : string)
  : string :=
  join (outDir cfg) (fileNameFromURL u).

(** The API offers the URL [u] in some round. *)
Definition offered (dec_root : body_stream → option root)
    (dec_env : string → option adEnvelope) (w : world) (cfg : config) (u : string)
  : Prop :=
  ∃ r imgs im,
    fetchOnce dec_root dec_env (api_reply w r) (country cfg) (locale cfg) = Ok imgs
    ∧ im ∈ imgs ∧ URL im = u.

(** Every URL in [seen] was offered, and has no usable file name or has
    its destination on the disk. *)
Definition settled (dec_root : body_stream → option root)
    (dec_env : string → option adEnvelope) (join : string → string → string)
    (w : world) (cfg : config) (st : state) : Prop :=
  ∀ u, u ∈ seen st →
       offered dec_root dec_env w cfg u
       ∧ (fileNameFromURL u = ""
          ∨ exists_ (dirs w) (files st) (dest_of_URL join cfg u) = true).

(** ** A concrete world, on which the theorems below are exercised *)

Module Demo.

Definition asset : string := "https://example.com/img123.jpg?foo=1".

Definition landscape_ad : ad :=
  {| IconHoverText := ""; ad_Title := " Dunes "; ad_Copyright := "(c) someone";
     Landscape := Some {| Asset := "  " +:+ asset +:+ " " |} |}.

Definition portrait_ad : ad :=
  {| IconHoverText := "Tower"; ad_Title := ""; ad_Copyright := ""; Landscape := None |}.

(** Stand-ins for the JSON decoders: the body is not looked at, the
    items are recognised by name. *)
Definition dec_root (_ : body_stream) : option root :=
  Some {| Items := ["portrait"; "broken"; "landscape"; "landscape"] |}.

Definition dec_env (item : string) : option adEnvelope :=
  if NetUrl.string_eqb item "landscape" then Some {| Ad := Some landscape_ad |}
  else if NetUrl.string_eqb item "portrait" then Some {| Ad := Some portrait_ad |}
  else None.

Definition join (dir name : string) : string := dir +:+ "/" +:+ name.

Definition image : spotImage :=
  {| URL := asset; FileName := "img123.jpg"; Title := "Dunes";
     Copyright := "(c) someone" |}.

Definition ok_response (len : Z) (bytes : string) (broken : bool) : Response :=
  {| StatusCode := 200; ContentLength := len;
     Body := {| bs_bytes := bytes; bs_broken := broken |} |}.

Fixpoint bytes (n : nat) : string :=
  match n with O => "" | S n' => String "x" (bytes n') end.

(** The API always answers; the asset server is unreachable. *)
Definition offline : world :=
  {| api_reply := λ _ _, DoResp (ok_response (-1) "{}" false);
     asset_reply := λ _, DoErr;
     asset_faults := λ _, no_faults;
     dirs := {[ "wallpaper" ]} |}.

(** The API always answers and the asset server delivers. *)
Definition online : world :=
  {| api_reply := λ _ _, DoResp (ok_response (-1) "{}" false);
     asset_reply := λ _, DoResp (ok_response 3 "abc" false);
     asset_faults := λ _, no_faults;
     dirs := {[ "wallpaper" ]} |}.

Definition cfg : config :=
  {| outDir := "wallpaper"; locale := "en-US"; country := "US"; verbose := true |}.

Definition dst : string := "wallpaper/img123.jpg".

(** A directory that holds the image already. *)
Definition full_dir : FS := {[ dst := "abc" ]}.

(** A batch of two assets of which the first is named like the temporary
    file of the second. *)
Definition asset_ad (url : string) : ad :=
  {| IconHoverText := ""; ad_Title := ""; ad_Copyright := "";
     Landscape := Some {| Asset := url |} |}.

(** [filepath.Join] on the two kinds of names used here: the name "."
    gives the directory itself, any other name is put behind a slash. *)
Definition join_clean (dir name : string) : string :=
  if NetUrl.string_eqb name "." then dir else dir +:+ "/" +:+ name.

Definition clash_root (_ : body_stream) : option root :=
  Some {| Items := ["part"; "whole"] |}.

Definition clash_env (item : string) : option adEnvelope :=
  if NetUrl.string_eqb item "part"
  then Some {| Ad := Some (asset_ad "https://example.com/x.jpg.part") |}
  else Some {| Ad := Some (asset_ad "https://example.com/x.jpg") |}.

End Demo.

(** * Properties *)

(** ** The models of the Go packages, on examples *)

Example TrimSpace_ascii : TrimSpace "  ab c
 " = "ab c".
Proof. reflexivity. Qed.

Example TrimSpace_nbsp :
  TrimSpace (String (ascii_of_nat 194) (String (ascii_of_nat 160) "x ")) = "x".
Proof. reflexivity. Qed.

Example Parse_example :
  option_map NetUrl.Path (NetUrl.Parse "https://example.com/img123.jpg?foo=1") = Some "/img123.jpg".
Proof. reflexivity. Qed.

Example Parse_bad_escape : NetUrl.Parse "https://example.com/%zz.jpg" = None.
Proof. reflexivity. Qed.

Example Base_examples :
  map FilePath.Base ["/img123.jpg"; "/a/b/"; ""; "/"; "//"; "a"]
  = ["img123.jpg"; "b"; "."; "/"; "/"; "a"].
Proof. reflexivity. Qed.

Example buildAPIURL_example :
  buildAPIURL "US" "en-US"
  = ("https://fd.api.iris.microsoft.com/v4/api/selection?bcnt=4&country=US&fmt=json&locale=en-US&placement=88000820",
     None).
Proof. vm_compute. reflexivity. Qed.

Example fileNameFromURL_examples :
  map fileNameFromURL
      ["https://example.com/img123.jpg?foo=1"; "https://example.com/a/b/pic";
       "https://example.com/%zz.jpg"; "https://example.com"; "https://example.com/"]
  = ["img123.jpg"; "pic.jpg"; ""; "."; "/.jpg"].
Proof. vm_compute. reflexivity. Qed.

(** ** Strings *)

Lemma string_eqb_true (a b : string) : NetUrl.string_eqb a b = true ↔ a = b.
Proof. unfold NetUrl.string_eqb. destruct (string_dec a b); split; congruence. Qed.

Lemma string_eqb_false (a b : string) : NetUrl.string_eqb a b = false ↔ a ≠ b.
Proof. unfold NetUrl.string_eqb. destruct (string_dec a b); split; congruence. Qed.

(** ** The Deduplicator *)

Section Dedupe.

Implicit Types (l : list spotImage) (im : spotImage) (seen : gset string).

(** Filtering on the URL commutes with taking first occurrences. *)
Lemma first_occurrences_filter (P : string → Prop) `{!∀ u, Decision (P u)} l :
  filter (λ x, P (URL x)) (first_occurrences l)
  = first_occurrences (filter (λ x, P (URL x)) l).
Proof.
  induction l as [|im l IH]; [done|].
  rewrite filter_cons. cbn [first_occurrences].
  destruct (NetUrl.string_eqb (URL im) "") eqn:E.
  - rewrite IH. destruct (decide (P (URL im))); [|done].
    cbn [first_occurrences]. by rewrite E.
  - rewrite filter_cons. destruct (decide (P (URL im))) as [HP|HP].
    + cbn [first_occurrences]. rewrite E. f_equal.
      rewrite <- IH, !list_filter_filter.
      apply list_filter_iff. intros x. tauto.
    + rewrite <- IH, list_filter_filter.
      apply list_filter_iff. intros x. split; [tauto|].
      intros Hx. split; [done|]. congruence.
Qed.

(** The loop of [dedupe], for any contents of its two accumulators. *)
Lemma dedupe_loop_spec l seen out :
  dedupe_loop l seen out
  = out ++ first_occurrences (filter (λ x, URL x ∉ seen) l).
Proof.
  revert seen out. induction l as [|im l IH]; intros seen out.
  - cbn. by rewrite app_nil_r.
  - cbn [dedupe_loop]. rewrite filter_cons.
    destruct (NetUrl.string_eqb (URL im) "") eqn:E.
    + rewrite IH. destruct (decide (URL im ∉ seen)); [|done].
      cbn [first_occurrences]. by rewrite E.
    + case_bool_decide as Hin.
      * rewrite IH. destruct (decide (URL im ∉ seen)); [done|done].
      * rewrite IH. destruct (decide (URL im ∉ seen)); [|done].
        cbn [first_occurrences]. rewrite E, <- app_assoc. cbn. do 2 f_equal.
        pose proof (first_occurrences_filter (λ u, u ≠ URL im)
                      (filter (λ x, URL x ∉ seen) l)) as Hc.
        cbn beta in Hc. rewrite Hc, list_filter_filter.
        f_equal. apply list_filter_iff. intros x.
        rewrite not_elem_of_union, not_elem_of_singleton. tauto.
Qed.

Lemma dedupe_first_occurrences l : dedupe l = first_occurrences l.
Proof.
  unfold dedupe. rewrite dedupe_loop_spec. cbn. f_equal.
  induction l as [|im l IH]; [done|].
  rewrite filter_cons_True by set_solver. by f_equal.
Qed.

Lemma first_occurrences_sublist l : sublist (first_occurrences l) l.
Proof.
  induction l as [|im l IH]; cbn; [constructor|].
  destruct (NetUrl.string_eqb (URL im) "").
  - by apply sublist_cons.
  - apply sublist_skip. etrans; [apply sublist_filter|done].
Qed.

Lemma first_occurrences_nonempty l im :
  im ∈ first_occurrences l → URL im ≠ "".
Proof.
  induction l as [|x l IH]; cbn; [by intros ?%not_elem_of_nil|].
  destruct (NetUrl.string_eqb (URL x) "") eqn:E; [done|].
  intros [->|[_ ?]%list_elem_of_filter]%elem_of_cons; [|auto].
  by apply string_eqb_false.
Qed.

Lemma first_occurrences_NoDup l : NoDup (URL <$> first_occurrences l).
Proof.
  induction l as [|x l IH]; cbn; [constructor|].
  destruct (NetUrl.string_eqb (URL x) ""); [done|].
  rewrite fmap_cons. constructor.
  - intros (y & Hy & [Hne _]%list_elem_of_filter)%list_elem_of_fmap. congruence.
  - eapply sublist_NoDup; [exact IH|]. apply fmap_sublist, sublist_filter.
Qed.

(** Every URL of the input that is not empty is still there. *)
Lemma first_occurrences_complete l im :
  im ∈ l → URL im ≠ "" → URL im ∈ URL <$> first_occurrences l.
Proof.
  induction l as [|x l IH]; [by intros ?%not_elem_of_nil|].
  intros Hin Hne. cbn.
  destruct (NetUrl.string_eqb (URL x) "") eqn:E.
  - apply elem_of_cons in Hin as [->|Hin]; [|auto].
    by apply string_eqb_true in E.
  - rewrite fmap_cons. destruct (decide (URL im = URL x)) as [->|Hd]; [left|].
    apply elem_of_cons in Hin as [->|Hin]; [done|].
    right. specialize (IH Hin Hne).
    apply list_elem_of_fmap in IH as (y & Hy & Hyin).
    apply list_elem_of_fmap. exists y. split; [done|].
    apply list_elem_of_filter. split; [congruence|done].
Qed.

(** An entry that is kept is the first entry of the input with its URL. *)
Lemma first_occurrences_first l im :
  im ∈ first_occurrences l →
  ∃ l1 l2, l = l1 ++ im :: l2 ∧ URL im ∉ (URL <$> filter (λ x, URL x ≠ "") l1).
Proof.
  induction l as [|x l IH]; cbn; [by intros ?%not_elem_of_nil|].
  destruct (NetUrl.string_eqb (URL x) "") eqn:E.
  - intros (l1 & l2 & -> & Hnot)%IH. exists (x :: l1), l2. split; [done|].
    apply string_eqb_true in E. by rewrite filter_cons_False by tauto.
  - intros [->|[Hne Hin]%list_elem_of_filter]%elem_of_cons.
    + exists [], l. split; [done|]. cbn. apply not_elem_of_nil.
    + destruct (IH Hin) as (l1 & l2 & -> & Hnot). exists (x :: l1), l2.
      split; [done|]. apply string_eqb_false in E.
      rewrite filter_cons_True by done. rewrite fmap_cons.
      intros [?|?]%elem_of_cons; [congruence|done].
Qed.

End Dedupe.

(** C4: for every sequence of descriptors, [dedupe] returns the sequence
    with the entries of empty URL removed and with every later occurrence
    of a URL already seen removed (it is [first_occurrences]); the result is
    a subsequence of the input, so the order is kept; each kept entry is the
    first of the input with its URL; every non-empty URL of the input stays
    represented; and no two entries of the result have the same URL. *)
Theorem dedupe_keeps_first_occurrences (l : list spotImage) :
  dedupe l = first_occurrences l
  ∧ sublist (dedupe l) l
  ∧ (∀ im, im ∈ dedupe l → URL im ≠ ""
       ∧ ∃ l1 l2, l = l1 ++ im :: l2 ∧ URL im ∉ (URL <$> filter (λ x, URL x ≠ "") l1))
  ∧ (∀ im, im ∈ l → URL im ≠ "" → URL im ∈ URL <$> dedupe l)
  ∧ NoDup (URL <$> dedupe l).
Proof.
  rewrite dedupe_first_occurrences. split_and!.
  - done.
  - apply first_occurrences_sublist.
  - intros im Him. split; [by eapply first_occurrences_nonempty|].
    by apply first_occurrences_first.
  - apply first_occurrences_complete.
  - apply first_occurrences_NoDup.
Qed.

(** ** The Parser *)

Section Parser.

Variable dec_root : body_stream → option root.
Variable dec_env : string → option adEnvelope.

Lemma image_of_envelope_accepted env d :
  image_of_envelope env = Some d ↔ accepted_envelope env d.
Proof.
  unfold image_of_envelope, accepted_envelope. split.
  - destruct (Ad env) as [a|] eqn:Ea; [|done].
    destruct (Landscape a) as [img|] eqn:El; [|done].
    destruct (NetUrl.string_eqb _ "") eqn:E; [done|].
    destruct (HasPrefix _ _) eqn:P; [|done]. cbn.
    intros [= <-]. exists a, img. split_and!; try done.
    by apply string_eqb_false.
  - intros (a & img & -> & -> & Hne & -> & ->).
    apply string_eqb_false in Hne. by rewrite Hne.
Qed.

Lemma elem_of_collect items im :
  im ∈ collect dec_env items ↔ ∃ item, item ∈ items ∧ image_of_item dec_env item = Some im.
Proof.
  induction items as [|it items IH]; cbn.
  - split; [by intros ?%not_elem_of_nil|]. by intros (? & ?%not_elem_of_nil & _).
  - destruct (image_of_item dec_env it) as [im'|] eqn:E.
    + rewrite elem_of_cons, IH. split.
      * intros [->|(item & ? & ?)]; [exists it|exists item]; by rewrite ?elem_of_cons; auto.
      * intros (item & [->|?]%elem_of_cons & ?); [left; congruence|right; eauto].
    + rewrite IH. split.
      * intros (item & ? & ?). exists item. rewrite elem_of_cons. auto.
      * intros (item & [->|?]%elem_of_cons & ?); [congruence|eauto].
Qed.

(** A malformed item does not show in what the loop collects. *)
Lemma collect_skips_malformed items1 item items2 :
  dec_env item = None →
  collect dec_env (items1 ++ item :: items2) = collect dec_env (items1 ++ items2).
Proof.
  intros Hbad. induction items1 as [|it items1 IH]; cbn.
  - unfold image_of_item. by rewrite Hbad.
  - rewrite IH. done.
Qed.

(** [fetchOnce] succeeds only through a 200 answer whose body decodes. *)
Lemma fetchOnce_Ok net country locale imgs :
  fetchOnce dec_root dec_env net country locale = Ok imgs →
  ∃ resp r,
    net (fst (buildAPIURL country locale)) = DoResp resp
    ∧ StatusCode resp = 200
    ∧ dec_root (Body resp) = Some r
    ∧ imgs = dedupe (collect dec_env (Items r)).
Proof.
  unfold fetchOnce, fetch_url, parse_response.
  destruct (buildAPIURL country locale) as [reqURL e]. cbn [fst].
  destruct (NetUrl.Parse reqURL); [|done].
  destruct (net reqURL) as [|resp]; [done|].
  destruct (StatusCode resp =? 200) eqn:S; [|done]. cbn.
  apply Z.eqb_eq in S.
  destruct (dec_root (Body resp)) as [r|] eqn:D; [|done].
  intros [= <-]. by exists resp, r.
Qed.

Lemma elem_of_dedupe (l : list spotImage) im : im ∈ dedupe l → im ∈ l.
Proof.
  rewrite dedupe_first_occurrences. intros Him.
  eapply elem_of_sublist; [exact Him|apply first_occurrences_sublist].
Qed.

End Parser.

(** C3: every descriptor that [fetchOnce] returns has a URL that is not
    empty and starts with "https://", and it comes from an item whose
    envelope has an advertisement with a landscape image whose trimmed
    asset is that URL; an envelope yields a descriptor exactly when its
    advertisement and landscape image are present and the trimmed asset is
    not empty and starts with "https://", so every other envelope is
    dropped. *)
Theorem fetchOnce_landscape_https_only
    (dec_root : body_stream → option root) (dec_env : string → option adEnvelope) :
  (∀ net country locale imgs im,
     fetchOnce dec_root dec_env net country locale = Ok imgs →
     im ∈ imgs →
     URL im ≠ "" ∧ HasPrefix (URL im) "https://" = true
     ∧ ∃ resp r item env,
         net (fst (buildAPIURL country locale)) = DoResp resp
         ∧ dec_root (Body resp) = Some r
         ∧ item ∈ Items r ∧ dec_env item = Some env
         ∧ accepted_envelope env im)
  ∧ (∀ env d, image_of_envelope env = Some d ↔ accepted_envelope env d)
  ∧ (∀ env, (¬ ∃ d, accepted_envelope env d) → image_of_envelope env = None).
Proof.
  split_and!.
  - intros net country locale imgs im Hf Him.
    apply fetchOnce_Ok in Hf as (resp & r & Hnet & _ & Hdec & ->).
    apply elem_of_dedupe, elem_of_collect in Him as (item & Hitem & Himg).
    unfold image_of_item in Himg.
    destruct (dec_env item) as [env|] eqn:Henv; [|done].
    apply image_of_envelope_accepted in Himg.
    pose proof Himg as (a & img & _ & _ & Hne & Hpre & ->). cbn [URL].
    split_and!; [done|done|]. by exists resp, r, item, env.
  - apply image_of_envelope_accepted.
  - intros env Hnone. destruct (image_of_envelope env) as [d|] eqn:E; [|done].
    exfalso. apply Hnone. exists d. by apply image_of_envelope_accepted.
Qed.

(** C6: when the outer JSON object does not decode, the batch fails with
    an error and no descriptor; when an inner item string does not parse as
    an envelope, the batch is read as if that item were absent, so the
    other items are processed and returned. *)
Theorem parse_response_failure_tiers
    (dec_root : body_stream → option root) (dec_env : string → option adEnvelope) :
  (∀ body, dec_root body = None → parse_response dec_root dec_env body = Err ErrDecode)
  ∧ (∀ body items1 item items2,
       dec_root body = Some {| Items := items1 ++ item :: items2 |} →
       dec_env item = None →
       parse_response dec_root dec_env body
       = Ok (dedupe (collect dec_env (items1 ++ items2)))).
Proof.
  unfold parse_response. split.
  - by intros body ->.
  - intros body items1 item items2 -> Hbad. cbn [Items].
    by rewrite collect_skips_malformed.
Qed.

(** Title and copyright of a descriptor: the title is the hover text as it
    stands, not trimmed, whenever the hover text is not blank, and the
    trimmed title field otherwise; the copyright is the copyright field as
    it stands. *)
Theorem envelope_title_copyright (env : adEnvelope) (d : spotImage) :
  image_of_envelope env = Some d →
  ∃ a, Ad env = Some a
    ∧ Title d = (if negb (NetUrl.string_eqb (TrimSpace (IconHoverText a)) "")
                 then IconHoverText a else TrimSpace (ad_Title a))
    ∧ Copyright d = ad_Copyright a.
Proof.
  intros (a & img & Ha & _ & _ & _ & ->)%image_of_envelope_accepted.
  exists a. by split_and!.
Qed.

(** C9, on an envelope whose hover text has surrounding blanks: the title
    of the descriptor keeps the blanks, where the trimmed field is "Hello". *)
Theorem title_of_padded_hover_text :
  let a := {| IconHoverText := " Hello "; ad_Title := "World"; ad_Copyright := "";
              Landscape := Some {| Asset := "https://example.com/a.jpg" |} |} in
  option_map Title (image_of_envelope {| Ad := Some a |}) = Some " Hello "
  ∧ TrimSpace " Hello " = "Hello".
Proof. vm_compute. done. Qed.

(** ** The Downloader *)

Lemma length_append (a b : string) :
  String.length (a +:+ b) = (String.length a + String.length b)%nat.
Proof.
  induction a as [|c a IH]; [done|].
  change (String c a +:+ b) with (String c (a +:+ b)). cbn [String.length]. by rewrite IH.
Qed.

Lemma tmp_of_ne (dst : string) : tmp_of dst ≠ dst.
Proof.
  intros H. apply (f_equal String.length) in H.
  unfold tmp_of in H. rewrite length_append in H. cbn in H. lia.
Qed.

(** The temporary file written and removed again leaves the file system as
    it was, but for an older file at the temporary path. *)
Lemma delete_tmp_written (fs : FS) (tmp written : string) :
  delete tmp (<[tmp := written]> (<[tmp := ""]> fs)) = delete tmp fs.
Proof. by rewrite !delete_insert_eq. Qed.

(** What a failed [download] leaves behind, error by error: nothing is
    created before the temporary file is, and the temporary file is removed
    on every failure between its creation and the rename. *)
Lemma download_failure_cases reply faults (fs : FS) src dst fs' e :
  download reply faults fs src dst = (fs', Some e) →
  match e with
  | ErrNewRequest | ErrTransport | ErrHTTP _ | ErrCreate => fs' = fs
  | ErrCopy | ErrClose | ErrStat | ErrSizeMismatch => fs' = delete (tmp_of dst) fs
  | ErrRename => ∃ written, fs' = <[tmp_of dst := written]> fs
  | ErrDecode => False
  end.
Proof.
  unfold download.
  destruct (NetUrl.Parse src); [|by intros [= <- <-]].
  destruct reply as [|resp]; [by intros [= <- <-]|].
  destruct (negb (StatusCode resp =? 200)); [by intros [= <- <-]|].
  destruct (create_fails faults); [by intros [= <- <-]|].
  destruct (io_Copy (Body resp) faults) as [written copyErr].
  rewrite delete_tmp_written.
  destruct copyErr; [by intros [= <- <-]|].
  destruct (close_fails faults); [by intros [= <- <-]|].
  destruct (0 <? ContentLength resp).
  - destruct (stat_fails faults); [by intros [= <- <-]|].
    destruct (negb _); [by intros [= <- <-]|].
    destruct (rename_fails faults); [|done].
    intros [= <- <-]. exists written. by rewrite insert_insert_eq.
  - destruct (rename_fails faults); [|done].
    intros [= <- <-]. exists written. by rewrite insert_insert_eq.
Qed.

(** A transfer that breaks off while the body is copied. *)
Lemma download_interrupted resp faults (fs : FS) src dst :
  is_Some (NetUrl.Parse src) →
  StatusCode resp = 200 →
  create_fails faults = false →
  bs_broken (Body resp) = true →
  download (DoResp resp) faults fs src dst = (delete (tmp_of dst) fs, Some ErrCopy).
Proof.
  intros [pu Hpu] Hst Hcr Hbr. unfold download. rewrite Hpu, Hst, Hcr. cbn.
  assert (snd (io_Copy (Body resp) faults) = true) as Hc.
  { unfold io_Copy. destruct (write_limit faults) as [n|]; [|done].
    by destruct (n <? _)%nat. }
  destruct (io_Copy (Body resp) faults) as [written copyErr]. cbn in Hc. subst copyErr.
  by rewrite delete_tmp_written.
Qed.

(** C1 as stated fails: the answer is a 404 and a file from an earlier,
    broken-off run lies at the temporary path.  [download] returns the
    status error before it creates or removes anything, and the temporary
    file is still there. *)
Lemma download_404_keeps_stale_tmp :
  download (DoResp {| StatusCode := 404; ContentLength := -1;
                      Body := {| bs_bytes := ""; bs_broken := false |} |})
           no_faults {[ tmp_of Demo.dst := "stale" ]} Demo.asset Demo.dst
  = ({[ tmp_of Demo.dst := "stale" ]}, Some (ErrHTTP 404))
  ∧ listed_failure (ErrHTTP 404) = true
  ∧ ({[ tmp_of Demo.dst := "stale" ]} : FS) !! tmp_of Demo.dst = Some "stale".
Proof. vm_compute. by split_and!. Qed.

(** C1, amended: a failed [download] leaves the destination path as it was
    before the call, whatever the error.  A transport error or a status
    other than 200 is returned before the temporary file is created: no
    file is created, changed or deleted, so a temporary file is there
    afterwards only if one was there before.  On a copy error or a size
    mismatch the temporary file is deleted before the error is returned.
    In particular a transfer that breaks off during the copy fails with the
    copy error and leaves neither a temporary file nor, if there was none,
    a destination file. *)
Theorem download_failure_cleans_up reply faults (fs : FS) src dst :
  (∀ fs' e,
     download reply faults fs src dst = (fs', Some e) →
     fs' !! dst = fs !! dst
     ∧ (listed_failure e = true →
        (match e with
         | ErrCopy | ErrSizeMismatch => fs' = delete (tmp_of dst) fs
         | _ => fs' = fs
         end)
        ∧ (fs !! tmp_of dst = None ∨ e = ErrCopy ∨ e = ErrSizeMismatch →
           fs' !! tmp_of dst = None)))
  ∧ (∀ resp,
       reply = DoResp resp →
       is_Some (NetUrl.Parse src) → StatusCode resp = 200 →
       create_fails faults = false → bs_broken (Body resp) = true →
       fs !! dst = None →
       ∃ fs', download reply faults fs src dst = (fs', Some ErrCopy)
              ∧ fs' !! dst = None ∧ fs' !! tmp_of dst = None).
Proof.
  split.
  - intros fs' e Hd. apply download_failure_cases in Hd. split.
    + destruct e;
        first [ by subst fs'
              | subst fs'; by rewrite lookup_delete_ne by apply tmp_of_ne
              | destruct Hd as [written ->];
                by rewrite lookup_insert_ne by apply tmp_of_ne
              | done ].
    + intros Hl. destruct e; try discriminate Hl; subst fs';
        rewrite ?lookup_delete_eq; (split; [done|]); intros [?|[?|?]]; done.
  - intros resp -> Hp Hs Hc Hb Hdst. eexists.
    split; [by apply download_interrupted|].
    by rewrite lookup_delete_eq, (lookup_delete_ne _ _ _ (tmp_of_ne dst)).
Qed.

(** C5: once the body is copied and the file closed, a response that
    declares a positive content length has the size of the temporary file
    compared with it: on a mismatch [download] fails with the size-mismatch
    error, the temporary file is deleted and the destination is as before;
    on a match the file is renamed.  Without a declared length (the field is
    not positive) the sizes are not looked at and the file is renamed. *)
Theorem download_verifies_declared_size resp faults (fs : FS) src dst written :
  is_Some (NetUrl.Parse src) →
  StatusCode resp = 200 →
  create_fails faults = false →
  io_Copy (Body resp) faults = (written, false) →
  close_fails faults = false →
  (0 < ContentLength resp → stat_fails faults = false →
   Z.of_nat (String.length written) ≠ ContentLength resp →
   download (DoResp resp) faults fs src dst
   = (delete (tmp_of dst) fs, Some ErrSizeMismatch)
   ∧ delete (tmp_of dst) fs !! tmp_of dst = None
   ∧ delete (tmp_of dst) fs !! dst = fs !! dst)
  ∧ (0 < ContentLength resp → stat_fails faults = false →
     Z.of_nat (String.length written) = ContentLength resp →
     download (DoResp resp) faults fs src dst = commit faults fs dst written)
  ∧ (ContentLength resp ≤ 0 →
     download (DoResp resp) faults fs src dst = commit faults fs dst written).
Proof.
  intros [pu Hpu] Hst Hcr Hcp Hcl.
  unfold download, commit. rewrite Hpu, Hst, Hcr, Hcp, Hcl. cbn.
  rewrite delete_tmp_written, insert_insert_eq. split_and!.
  - intros Hpos Hstat Hne.
    apply Z.ltb_lt in Hpos. rewrite Hpos, Hstat.
    apply Z.eqb_neq in Hne. rewrite Hne. cbn.
    by rewrite lookup_delete_eq, (lookup_delete_ne _ _ _ (tmp_of_ne dst)).
  - intros Hpos Hstat Heq.
    apply Z.ltb_lt in Hpos. rewrite Hpos, Hstat.
    apply Z.eqb_eq in Heq. by rewrite Heq.
  - intros Hle. apply Z.ltb_ge in Hle. by rewrite Hle.
Qed.

(** ** The Poll Loop *)

Section PollLoop.

Variable dec_root : body_stream → option root.
Variable dec_env : string → option adEnvelope.
Variable join : string → string → string.
Variable w : world.
Variable cfg : config.

Lemma download_calls_log e st :
  download_calls (trace (log e st))
  = download_calls (trace st) ++ (if is_download_call e then [e] else []).
Proof. unfold download_calls, log. cbn. by rewrite List.filter_app. Qed.

Lemma same_log_if b e st :
  is_download_call e = false → same_but_seen_and_log st (log_if b e st).
Proof.
  intros He. destruct b; [|done]. unfold same_but_seen_and_log.
  rewrite download_calls_log, He, app_nil_r. done.
Qed.

(** A descriptor that was seen, that has no file name or whose file
    exists is passed over: [download] is not called. *)
Lemma process_image_skips st k im :
  URL im ∈ seen st ∨ fileNameFromURL (URL im) = ""
  ∨ exists_ (dirs w) (files st) (dest_path join cfg im) = true →
  ∃ st', process_image join w cfg (st, k) im = (st', k)
         ∧ same_but_seen_and_log st st'.
Proof.
  intros H. unfold process_image. case_bool_decide as Hs; [by eexists|].
  destruct (NetUrl.string_eqb (fileNameFromURL (URL im)) "") eqn:En.
  { by eexists. }
  cbn [files]. fold (dest_path join cfg im).
  destruct (exists_ (dirs w) (files st) (dest_path join cfg im)) eqn:Ex.
  { eexists. split; [done|]. by apply (same_log_if _ _ (Build_state _ _ _ _ _)). }
  destruct H as [?|[H|?]]; [done| |done].
  apply string_eqb_false in En. done.
Qed.

(** The loop body never touches [emptyRounds]. *)
Lemma process_image_emptyRounds acc im :
  emptyRounds (process_image join w cfg acc im).1 = emptyRounds acc.1.
Proof.
  destruct acc as [st k]. unfold process_image. case_bool_decide; [done|].
  destruct (NetUrl.string_eqb _ ""); [done|]. cbn [files].
  destruct (exists_ _ _ _); [by destruct (verbose cfg)|].
  destruct (download _ _ _ _ _) as [fs' [e|]]; [by destruct (verbose cfg)|done].
Qed.

Lemma process_images_emptyRounds st imgs :
  emptyRounds (process_images join w cfg st imgs).1 = emptyRounds st.
Proof.
  unfold process_images. change st with ((st, O).1) at 2.
  generalize (st, O). induction imgs as [|im imgs IH]; intros acc; [done|].
  cbn. by rewrite IH, process_image_emptyRounds.
Qed.

(** A round with a download resets [emptyRounds], a round without one
    increments it. *)
Lemma round_emptyRounds r st st' k :
  round dec_root dec_env join w cfg r st = Ok (st', k) →
  emptyRounds st' = match k with O => S (emptyRounds st) | S _ => O end.
Proof.
  unfold round. destruct (fetchOnce _ _ _ _ _) as [imgs|]; [|done].
  intros [= <- <-].
  pose proof (process_images_emptyRounds (log (EvFetch r) st) imgs) as HE.
  destruct (process_images _ _ _ _ _) as [st1 k1]. cbn in *.
  by destruct k1; cbn; rewrite ?HE.
Qed.

(** The loop runs exactly as long as the quiet rounds need to bring
    [emptyRounds] to the ceiling. *)
Lemma poll_loop_quiet n : ∀ r st fuel,
  (emptyRounds st + n = maxEmptyRounds)%nat →
  quiet_rounds dec_root dec_env join w cfg n r st = true →
  (n ≤ fuel)%nat →
  ∃ st', poll_loop dec_root dec_env join w cfg fuel r st = Some (ExitOK, st', (r + n)%nat)
         ∧ emptyRounds st' = maxEmptyRounds.
Proof.
  induction n as [|n IH]; intros r st fuel He Hq Hf.
  - assert ((emptyRounds st <? maxEmptyRounds)%nat = false) as Hlt
      by (apply Nat.ltb_ge; lia).
    exists (log_if (verbose cfg) (EvDone (totalNew st)) st).
    split.
    + destruct fuel; cbn [poll_loop]; rewrite Hlt; by rewrite Nat.add_0_r.
    + destruct (verbose cfg); cbn; lia.
  - assert ((emptyRounds st <? maxEmptyRounds)%nat = true) as Hlt
      by (apply Nat.ltb_lt; lia).
    destruct fuel as [|fuel]; [lia|]. cbn [poll_loop]. rewrite Hlt.
    cbn [quiet_rounds] in Hq.
    destruct (round _ _ _ _ _ r st) as [[st1 k]|] eqn:Hr; [|done].
    destruct k; [|done].
    apply round_emptyRounds in Hr.
    destruct (IH (S r) st1 fuel) as (st' & Hp & Hst'); [lia|done|lia|].
    exists st'. split; [|done]. rewrite Hp.
    by replace (S r + n)%nat with (r + S n)%nat by lia.
Qed.

(** With too little fuel the loop is still running: it does not stop
    before the quiet rounds are over. *)
Lemma poll_loop_quiet_running n : ∀ r st fuel,
  (emptyRounds st + n = maxEmptyRounds)%nat →
  quiet_rounds dec_root dec_env join w cfg n r st = true →
  (fuel < n)%nat →
  poll_loop dec_root dec_env join w cfg fuel r st = None.
Proof.
  induction n as [|n IH]; intros r st fuel He Hq Hf; [lia|].
  assert ((emptyRounds st <? maxEmptyRounds)%nat = true) as Hlt
    by (apply Nat.ltb_lt; lia).
  destruct fuel as [|fuel]; cbn [poll_loop]; rewrite Hlt; [done|].
  cbn [quiet_rounds] in Hq.
  destruct (round _ _ _ _ _ r st) as [[st1 k]|] eqn:Hr; [|done].
  destruct k; [|done].
  apply round_emptyRounds in Hr. apply IH; [lia|done|lia].
Qed.

(** *** Runs in which every offered file is already there *)

Variable fs0 : FS.

Lemma untouched_same st st' :
  untouched fs0 st → same_but_seen_and_log st st' → untouched fs0 st'.
Proof. intros (? & ? & ?) (? & ? & ? & ?). unfold untouched. split_and!; congruence. Qed.

Lemma process_images_all_skipped imgs : ∀ st k,
  untouched fs0 st →
  (∀ im, im ∈ imgs →
     fileNameFromURL (URL im) = ""
     ∨ exists_ (dirs w) fs0 (dest_path join cfg im) = true) →
  ∃ st', fold_left (process_image join w cfg) imgs (st, k) = (st', k)
         ∧ emptyRounds st' = emptyRounds st ∧ untouched fs0 st'.
Proof.
  induction imgs as [|im imgs IH]; intros st k Hu Hall; [by exists st|].
  destruct (process_image_skips st k im) as (st1 & Hp & Hsame).
  { right. destruct Hu as (-> & _). apply Hall. left. }
  cbn [fold_left]. rewrite Hp.
  destruct (IH st1 k) as (st' & Hf & He & Hu').
  - by eapply untouched_same.
  - intros im' Him'. apply Hall. by right.
  - exists st'. split_and!; [done| |done]. destruct Hsame as (? & _). congruence.
Qed.

Lemma round_all_skipped r st :
  all_present dec_root dec_env join w cfg fs0 → untouched fs0 st →
  ∀ imgs,
    fetchOnce dec_root dec_env (api_reply w r) (country cfg) (locale cfg) = Ok imgs →
    ∃ st', round dec_root dec_env join w cfg r st = Ok (st', O) ∧ untouched fs0 st'.
Proof.
  intros Hall Hu imgs Hf. unfold round, process_images. rewrite Hf.
  destruct (process_images_all_skipped imgs (log (EvFetch r) st) O)
    as (st1 & Hp & _ & Hu1).
  - eapply untouched_same; [done|]. by apply (same_log_if true).
  - intros im Him. by eapply Hall.
  - rewrite Hp. cbn. eexists. split; [done|].
    destruct Hu1 as (? & ? & ?). unfold untouched.
    rewrite download_calls_log. cbn. by rewrite app_nil_r.
Qed.

Lemma poll_loop_untouched fuel : ∀ r st x st' n,
  all_present dec_root dec_env join w cfg fs0 → untouched fs0 st →
  poll_loop dec_root dec_env join w cfg fuel r st = Some (x, st', n) →
  untouched fs0 st'.
Proof.
  assert (∀ st, untouched fs0 st →
                untouched fs0 (log_if (verbose cfg) (EvDone (totalNew st)) st)) as Hdone.
  { intros st Hu. eapply untouched_same; [done|]. by apply same_log_if. }
  induction fuel as [|fuel IH]; intros r st x st' n Hall Hu; cbn [poll_loop];
    destruct (emptyRounds st <? maxEmptyRounds)%nat;
    try (intros [= <- <- <-]; by apply Hdone).
  destruct (fetchOnce dec_root dec_env (api_reply w r) (country cfg) (locale cfg))
    as [imgs|e] eqn:Hf.
  - destruct (round_all_skipped r st Hall Hu imgs Hf) as (st1 & -> & Hu1).
    by apply IH.
  - unfold round. rewrite Hf. by intros [= <- <- <-].
Qed.

Lemma quiet_rounds_all_skipped n : ∀ r st,
  all_present dec_root dec_env join w cfg fs0 → untouched fs0 st →
  (∀ r, ∃ imgs,
     fetchOnce dec_root dec_env (api_reply w r) (country cfg) (locale cfg) = Ok imgs) →
  quiet_rounds dec_root dec_env join w cfg n r st = true.
Proof.
  induction n as [|n IH]; intros r st Hall Hu Hfetch; [done|].
  destruct (Hfetch r) as [imgs Hf].
  destruct (round_all_skipped r st Hall Hu imgs Hf) as (st1 & Hr & Hu1).
  cbn [quiet_rounds]. rewrite Hr. by apply IH.
Qed.

End PollLoop.

(** C2: a run whose first 50 rounds fetch successfully and download
    nothing leaves the loop after exactly 50 rounds, normally and with exit
    status 0 (with fuel for fewer than 50 rounds the loop is still running);
    the same holds from any round at which the counter of empty rounds is 0.
    A round with at least one successful download sets the counter to 0, a
    round without one increments it. *)
Theorem poll_loop_stops_after_50_empty_rounds
    (dec_root : body_stream → option root) (dec_env : string → option adEnvelope)
    (join : string → string → string) (w : world) (cfg : config) :
  (∀ fs fuel,
     quiet_rounds dec_root dec_env join w cfg 50 0 (initial_state fs) = true →
     ((50 ≤ fuel)%nat →
      ∃ st', main dec_root dec_env join w cfg fuel fs = Some (ExitOK, st', 50%nat)
             ∧ exit_status ExitOK = 0 ∧ emptyRounds st' = 50%nat)
     ∧ ((fuel < 50)%nat → main dec_root dec_env join w cfg fuel fs = None))
  ∧ (∀ r st fuel,
       emptyRounds st = 0%nat →
       quiet_rounds dec_root dec_env join w cfg 50 r st = true →
       (50 ≤ fuel)%nat →
       ∃ st', poll_loop dec_root dec_env join w cfg fuel r st
              = Some (ExitOK, st', (r + 50)%nat))
  ∧ (∀ r st st' k,
       round dec_root dec_env join w cfg r st = Ok (st', k) →
       ((0 < k)%nat → emptyRounds st' = 0%nat)
       ∧ (k = 0%nat → emptyRounds st' = S (emptyRounds st))).
Proof.
  split_and!.
  - intros fs fuel Hq. unfold main. split.
    + intros Hf.
      destruct (poll_loop_quiet dec_root dec_env join w cfg 50 0 (initial_state fs) fuel)
        as (st' & Hp & He); [done|done|done|].
      exists st'. by rewrite Hp.
    + intros Hf.
      by apply (poll_loop_quiet_running dec_root dec_env join w cfg 50).
  - intros r st fuel He Hq Hf.
    destruct (poll_loop_quiet dec_root dec_env join w cfg 50 r st fuel)
      as (st' & Hp & _); [by rewrite He|done|done|].
    by exists st'.
  - intros r st st' k Hr. apply round_emptyRounds in Hr. rewrite Hr.
    split; [by destruct k; [lia|]|by intros ->].
Qed.

(** A descriptor whose destination path exists is passed over without a
    call of [download]: the files, the counters and the list of download
    calls stay as they are.  Hence a run in which every descriptor the API
    offers has its destination in the directory already calls [download]
    not once, changes no file and counts no new download, however long it
    runs; and if the API answers every round it ends normally after 50
    rounds. *)
Lemma all_present_run_downloads_nothing
    (dec_root : body_stream → option root) (dec_env : string → option adEnvelope)
    (join : string → string → string) (w : world) (cfg : config) :
  (∀ st k im,
     exists_ (dirs w) (files st) (dest_path join cfg im) = true →
     ∃ st', process_image join w cfg (st, k) im = (st', k)
            ∧ files st' = files st ∧ totalNew st' = totalNew st
            ∧ download_calls (trace st') = download_calls (trace st))
  ∧ (∀ fs,
       all_present dec_root dec_env join w cfg fs →
       (∀ fuel x st' n,
          main dec_root dec_env join w cfg fuel fs = Some (x, st', n) →
          files st' = fs ∧ totalNew st' = 0 ∧ download_calls (trace st') = [])
       ∧ ((∀ r, ∃ imgs, fetchOnce dec_root dec_env (api_reply w r)
                                  (country cfg) (locale cfg) = Ok imgs) →
          ∀ fuel, (50 ≤ fuel)%nat →
          ∃ st', main dec_root dec_env join w cfg fuel fs = Some (ExitOK, st', 50%nat)
                 ∧ files st' = fs ∧ totalNew st' = 0
                 ∧ download_calls (trace st') = [])).
Proof.
  split.
  - intros st k im Hex.
    destruct (process_image_skips join w cfg st k im) as (st' & Hp & _ & ? & ? & ?);
      [by right; right|].
    by exists st'.
  - intros fs Hall.
    assert (untouched fs (initial_state fs)) as Hu0 by done.
    assert (∀ fuel x st' n,
              main dec_root dec_env join w cfg fuel fs = Some (x, st', n) →
              untouched fs st') as Hsafe.
    { intros fuel x st' n Hm. by eapply poll_loop_untouched. }
    split; [exact Hsafe|].
    intros Hfetch fuel Hfuel.
    destruct (poll_loop_quiet dec_root dec_env join w cfg 50 0 (initial_state fs) fuel)
      as (st' & Hp & _); [done| |done|].
    { by apply (quiet_rounds_all_skipped dec_root dec_env join w cfg fs). }
    exists st'. split; [done|]. by eapply Hsafe.
Qed.

(** ** File names *)

Lemma IndexByte_stake (s : string) (c : ascii) (i : nat) :
  IndexByte s c = Some i → IndexByte (stake i s) c = None.
Proof.
  revert i. induction s as [|d s IH]; intros i; cbn; [done|].
  destruct (ascii_dec d c) as [->|Hd]; [by intros [= <-]|].
  destruct (IndexByte s c) as [j|] eqn:E; [|done].
  intros [= <-]. cbn. destruct (ascii_dec d c); [done|]. by rewrite IH.
Qed.

Lemma IndexByte_append_None (a b : string) (c : ascii) :
  IndexByte a c = None → IndexByte b c = None → IndexByte (a +:+ b) c = None.
Proof.
  intros Ha Hb. induction a as [|d a IH]; [done|].
  change (String d a +:+ b) with (String d (a +:+ b)). cbn in *.
  destruct (ascii_dec d c); [done|].
  destruct (IndexByte a c); [done|]. by rewrite IH.
Qed.

Lemma Contains_append_ext (a : string) : Contains (a +:+ default_ext) "." = true.
Proof.
  unfold Contains. induction a as [|d a IH]; [done|].
  change (String d a +:+ default_ext) with (String d (a +:+ default_ext)).
  cbn [Index]. destruct (HasPrefix _ _); [done|].
  by destruct (Index (a +:+ default_ext) ".").
Qed.

Lemma strip_query_no_query (seg : string) : IndexByte (strip_query seg) "?" = None.
Proof.
  unfold strip_query. destruct (IndexByte seg "?") as [i|] eqn:E; [|done].
  by apply IndexByte_stake.
Qed.

Lemma with_default_ext_has_dot (seg : string) :
  Contains (with_default_ext seg) "." = true.
Proof.
  unfold with_default_ext. destruct (Contains seg ".") eqn:E; [done|].
  apply Contains_append_ext.
Qed.

Lemma with_default_ext_no_query (seg : string) :
  IndexByte seg "?" = None → IndexByte (with_default_ext seg) "?" = None.
Proof.
  intros H. unfold with_default_ext. destruct (Contains seg "."); [done|].
  by apply IndexByte_append_None.
Qed.

Lemma length_srev_onto (s acc : string) :
  String.length (srev_onto s acc) = (String.length s + String.length acc)%nat.
Proof.
  revert acc. induction s as [|c s IH]; intros acc; cbn; [done|].
  rewrite IH. cbn. lia.
Qed.

(** On a path that does not end in a slash, [filepath.Base] is the text
    after the last slash. *)
Lemma Base_final_segment (path : string) :
  path ≠ "" → HasSuffix path "/" = false → FilePath.Base path = final_segment path.
Proof.
  intros Hne Hsuf. unfold FilePath.Base, final_segment.
  destruct path as [|c0 path0]; [done|]. set (path := String c0 path0) in *.
  unfold HasSuffix in Hsuf. change (srev "/") with "/" in Hsuf.
  destruct (srev path) as [|c r] eqn:Er.
  { apply (f_equal String.length) in Er. unfold srev in Er.
    rewrite length_srev_onto in Er. cbn in Er. lia. }
  cbn in Hsuf. destruct (ascii_dec "/" c) as [<-|Hc]; [by destruct r|].
  assert (FilePath.strip_trailing (String c r) = String c r) as ->.
  { cbn. destruct c as [[] [] [] [] [] [] [] []]; try done. }
  cbn [FilePath.until_slash]. destruct (ascii_dec c "/") as [->|_]; [done|].
  destruct (srev (String c _)) eqn:El; [|done].
  apply (f_equal String.length) in El. unfold srev in El.
  rewrite length_srev_onto in El. cbn in El. lia.
Qed.

(** C8 as stated fails: this asset is accepted by the Parser, its path ends
    in the segment "%zz.jpg", which has a dot, yet [url.Parse] refuses the
    malformed escape and the derived file name is empty. *)
Lemma fileName_of_unparsable_asset :
  accepted_asset "https://example.com/%zz.jpg"
  ∧ spec_fileName "https://example.com/%zz.jpg" = "%zz.jpg"
  ∧ fileNameFromURL "https://example.com/%zz.jpg" = ""
  ∧ fileNameFromURL "https://example.com/%zz.jpg"
    ≠ spec_fileName "https://example.com/%zz.jpg".
Proof. vm_compute. split_and!; done. Qed.

(** C8, amended: when [url.Parse] accepts the URL, the file name is the
    last element of the decoded path as [filepath.Base] gives it (on a path
    that does not end in a slash: the text after the last slash), cut at the
    first '?', with ".jpg" appended when that has no dot; so it has a dot and
    no '?'.  When [url.Parse] refuses the URL the file name is empty.  For
    https://example.com/img123.jpg?foo=1 the file name is "img123.jpg", as
    the specification's reading of the URL text gives it. *)
Theorem fileNameFromURL_of_parsed_url (u : string) :
  (∀ pu, NetUrl.Parse u = Some pu →
     fileNameFromURL u
     = with_default_ext (strip_query (FilePath.Base (NetUrl.Path pu)))
     ∧ (NetUrl.Path pu ≠ "" → HasSuffix (NetUrl.Path pu) "/" = false →
        fileNameFromURL u
        = with_default_ext (strip_query (final_segment (NetUrl.Path pu))))
     ∧ Contains (fileNameFromURL u) "." = true
     ∧ IndexByte (fileNameFromURL u) "?" = None)
  ∧ (NetUrl.Parse u = None → fileNameFromURL u = "")
  ∧ fileNameFromURL "https://example.com/img123.jpg?foo=1" = "img123.jpg"
  ∧ spec_fileName "https://example.com/img123.jpg?foo=1" = "img123.jpg".
Proof.
  split_and!.
  - intros pu Hpu.
    assert (fileNameFromURL u
            = with_default_ext (strip_query (FilePath.Base (NetUrl.Path pu)))) as Heq.
    { unfold fileNameFromURL. by rewrite Hpu. }
    rewrite Heq. split_and!.
    + done.
    + intros Hne Hsuf. by rewrite Base_final_segment.
    + apply with_default_ext_has_dot.
    + apply with_default_ext_no_query, strip_query_no_query.
  - intros Hpu. unfold fileNameFromURL. by rewrite Hpu.
  - by vm_compute.
  - by vm_compute.
Qed.

(** ** The API URL *)

(** C10: [buildAPIURL] returns a nil error for every country and locale;
    the branch for a failure of [url.Parse] (which the fixed endpoint never
    takes) returns the empty string with a nil error as well; and
    [fetchOnce] goes on with the string alone, whatever the error result. *)
Theorem buildAPIURL_error_is_always_nil :
  (∀ country locale, (buildAPIURL country locale).2 = None)
  ∧ (∀ parsed country locale, (buildAPIURL_from parsed country locale).2 = None)
  ∧ (∀ country locale, buildAPIURL_from None country locale = ("", None))
  ∧ is_Some (NetUrl.Parse api_base)
  ∧ (∀ dec_root dec_env net country locale,
       fetchOnce dec_root dec_env net country locale
       = fetch_url dec_root dec_env net (buildAPIURL country locale).1).
Proof.
  assert (∀ parsed country locale, (buildAPIURL_from parsed country locale).2 = None)
    as Hfrom by (by intros [u|]).
  split_and!.
  - intros country locale. apply Hfrom.
  - exact Hfrom.
  - done.
  - eexists. vm_compute. reflexivity.
  - intros dec_root dec_env net country locale. unfold fetchOnce.
    by destruct (buildAPIURL country locale).
Qed.

(** ** The theorems on the concrete world *)

Example demo_fetchOnce :
  fetchOnce Demo.dec_root Demo.dec_env (api_reply Demo.offline 0) "US" "en-US"
  = Ok [Demo.image].
Proof. vm_compute. reflexivity. Qed.

Lemma dedupe_keeps_first_occurrences_witness :
  Demo.image ∈ dedupe [Demo.image; Demo.image] ∧ URL Demo.image ≠ "".
Proof.
  assert (Demo.image ∈ dedupe [Demo.image; Demo.image]) as Hin.
  { vm_compute. left. }
  split; [exact Hin|].
  exact (proj1 (proj1 (proj2 (proj2
           (dedupe_keeps_first_occurrences [Demo.image; Demo.image]))) Demo.image Hin)).
Defined.

Lemma fetchOnce_landscape_https_only_witness :
  fetchOnce Demo.dec_root Demo.dec_env (api_reply Demo.offline 0) "US" "en-US"
  = Ok [Demo.image]
  ∧ Demo.image ∈ [Demo.image]
  ∧ URL Demo.image ≠ ""
  ∧ HasPrefix (URL Demo.image) "https://" = true.
Proof.
  assert (fetchOnce Demo.dec_root Demo.dec_env (api_reply Demo.offline 0) "US" "en-US"
          = Ok [Demo.image]) as Hf by (vm_compute; reflexivity).
  assert (Demo.image ∈ [Demo.image]) as Hin by left.
  pose proof (proj1 (fetchOnce_landscape_https_only Demo.dec_root Demo.dec_env)
                _ _ _ _ _ Hf Hin) as (Hne & Hpre & _).
  split_and!; assumption.
Defined.

Lemma parse_response_failure_tiers_witness :
  Demo.dec_root {| bs_bytes := "{}"; bs_broken := false |}
  = Some {| Items := ["portrait"] ++ "broken" :: ["landscape"; "landscape"] |}
  ∧ Demo.dec_env "broken" = None
  ∧ parse_response Demo.dec_root Demo.dec_env {| bs_bytes := "{}"; bs_broken := false |}
    = Ok (dedupe (collect Demo.dec_env (["portrait"] ++ ["landscape"; "landscape"]))).
Proof.
  split_and!; [reflexivity|reflexivity|].
  apply (proj2 (parse_response_failure_tiers Demo.dec_root Demo.dec_env)
           _ ["portrait"] "broken" ["landscape"; "landscape"]); reflexivity.
Defined.

Lemma download_failure_cleans_up_witness :
  download (DoResp (Demo.ok_response 1000 (Demo.bytes 400) true)) no_faults
           ∅ Demo.asset Demo.dst
  = (∅, Some ErrCopy)
  ∧ listed_failure ErrCopy = true
  ∧ (∅ : FS) !! Demo.dst = None
  ∧ (∅ : FS) !! tmp_of Demo.dst = None.
Proof.
  assert (download (DoResp (Demo.ok_response 1000 (Demo.bytes 400) true)) no_faults
                   ∅ Demo.asset Demo.dst = (∅, Some ErrCopy)) as Hd
    by (vm_compute; reflexivity).
  pose proof (proj1 (download_failure_cleans_up _ _ _ _ _) ∅ ErrCopy Hd)
    as (Hdst & Hlisted).
  destruct (Hlisted eq_refl) as (_ & Htmp).
  split_and!; [exact Hd|reflexivity|reflexivity|].
  apply Htmp. right. by left.
Defined.

Lemma download_verifies_declared_size_witness :
  is_Some (NetUrl.Parse Demo.asset)
  ∧ io_Copy (Body (Demo.ok_response 1000 (Demo.bytes 900) false)) no_faults
    = (Demo.bytes 900, false)
  ∧ Z.of_nat (String.length (Demo.bytes 900)) ≠ 1000
  ∧ download (DoResp (Demo.ok_response 1000 (Demo.bytes 900) false)) no_faults
             ∅ Demo.asset Demo.dst
    = (delete (tmp_of Demo.dst) ∅, Some ErrSizeMismatch).
Proof.
  assert (is_Some (NetUrl.Parse Demo.asset)) as Hp
    by (eexists; vm_compute; reflexivity).
  assert (Z.of_nat (String.length (Demo.bytes 900)) ≠ 1000) as Hne
    by (vm_compute; discriminate).
  split_and!; [exact Hp|reflexivity|exact Hne|].
  apply (proj1 (download_verifies_declared_size
                  (Demo.ok_response 1000 (Demo.bytes 900) false) no_faults
                  ∅ Demo.asset Demo.dst (Demo.bytes 900)
                  Hp eq_refl eq_refl eq_refl eq_refl));
    [reflexivity|reflexivity|exact Hne].
Defined.

Lemma poll_loop_stops_after_50_empty_rounds_witness :
  quiet_rounds Demo.dec_root Demo.dec_env Demo.join Demo.offline Demo.cfg
               50 0 (initial_state ∅) = true
  ∧ ∃ st', main Demo.dec_root Demo.dec_env Demo.join Demo.offline Demo.cfg 50 ∅
           = Some (ExitOK, st', 50%nat)
           ∧ exit_status ExitOK = 0 ∧ emptyRounds st' = 50%nat.
Proof.
  assert (quiet_rounds Demo.dec_root Demo.dec_env Demo.join Demo.offline Demo.cfg
                       50 0 (initial_state ∅) = true) as Hq
    by (vm_compute; reflexivity).
  split; [exact Hq|].
  exact (proj1 (proj1 (poll_loop_stops_after_50_empty_rounds
                         Demo.dec_root Demo.dec_env Demo.join Demo.offline Demo.cfg)
                  ∅ 50%nat Hq) (le_n 50)).
Defined.

Lemma demo_all_present :
  all_present Demo.dec_root Demo.dec_env Demo.join Demo.online Demo.cfg Demo.full_dir.
Proof.
  intros r imgs im Hf Him. right.
  assert (fetchOnce Demo.dec_root Demo.dec_env (api_reply Demo.online r)
                    (country Demo.cfg) (locale Demo.cfg) = Ok [Demo.image]) as Hf'
    by (vm_compute; reflexivity).
  rewrite Hf' in Hf. injection Hf as <-.
  apply list_elem_of_singleton in Him as ->. vm_compute. reflexivity.
Defined.

Lemma fileNameFromURL_of_parsed_url_witness :
  is_Some (NetUrl.Parse Demo.asset)
  ∧ Contains (fileNameFromURL Demo.asset) "." = true
  ∧ IndexByte (fileNameFromURL Demo.asset) "?" = None.
Proof.
  destruct (NetUrl.Parse Demo.asset) as [pu|] eqn:Hpu; [|by vm_compute in Hpu].
  split; [by exists pu|].
  exact (proj2 (proj2 (proj1 (fileNameFromURL_of_parsed_url Demo.asset) pu Hpu))).
Defined.

(** In the demo world with the asset server on line, the first round
    downloads the image and the 50 rounds after it find nothing new. *)
Example demo_online_run :
  ∃ st', main Demo.dec_root Demo.dec_env Demo.join Demo.online Demo.cfg 51 ∅
         = Some (ExitOK, st', 51%nat)
         ∧ files st' = {[ Demo.dst := "abc" ]} ∧ totalNew st' = 1.
Proof. eexists. vm_compute. split_and!; reflexivity. Qed.

(** * Further properties of the code *)

(** ** [download] *)

(** A copy that returns no error has written the whole body. *)
Lemma io_Copy_complete body faults written :
  io_Copy body faults = (written, false) →
  written = bs_bytes body ∧ bs_broken body = false.
Proof.
  unfold io_Copy. destruct (write_limit faults) as [n|].
  - destruct (n <? _)%nat; [done|]. by intros [= <- ->].
  - by intros [= <- ->].
Qed.

(** What a [download] without error has gone through. *)
Lemma download_success_inv reply faults (fs : FS) src dst fs' :
  download reply faults fs src dst = (fs', None) →
  ∃ resp,
    reply = DoResp resp ∧ StatusCode resp = 200
    ∧ bs_broken (Body resp) = false
    ∧ (0 < ContentLength resp →
       Z.of_nat (String.length (bs_bytes (Body resp))) = ContentLength resp)
    ∧ fs' = <[dst := bs_bytes (Body resp)]> (delete (tmp_of dst) fs).
Proof.
  unfold download.
  destruct (NetUrl.Parse src); [|done].
  destruct reply as [|resp]; [done|].
  destruct (StatusCode resp =? 200) eqn:Hs; [|done]. apply Z.eqb_eq in Hs. cbn.
  destruct (create_fails faults); [done|].
  destruct (io_Copy (Body resp) faults) as [written copyErr] eqn:Hc.
  rewrite delete_tmp_written.
  destruct copyErr; [done|]. apply io_Copy_complete in Hc as [-> Hb].
  destruct (close_fails faults); [done|].
  destruct (0 <? ContentLength resp) eqn:Hpos.
  - destruct (stat_fails faults); [done|].
    destruct (Z.of_nat _ =? ContentLength resp) eqn:Hsz; [|done]. cbn.
    apply Z.eqb_eq in Hsz.
    destruct (rename_fails faults); [done|].
    intros [= <-]. by exists resp.
  - destruct (rename_fails faults); [done|].
    intros [= <-]. exists resp. split_and!; try done.
    apply Z.ltb_ge in Hpos. lia.
Qed.

(** X1: a [download] that returns no error has stored exactly the bytes of
    the response body at the destination, has left no temporary file, and
    has touched no other path; when the response declared a positive
    length, the stored file has that length. *)
Theorem download_success_stores_body reply faults (fs : FS) src dst fs' :
  download reply faults fs src dst = (fs', None) →
  ∃ resp,
    reply = DoResp resp
    ∧ fs' !! dst = Some (bs_bytes (Body resp))
    ∧ fs' !! tmp_of dst = None
    ∧ (∀ p, p ≠ dst → p ≠ tmp_of dst → fs' !! p = fs !! p)
    ∧ (0 < ContentLength resp →
       ∃ content, fs' !! dst = Some content
                  ∧ Z.of_nat (String.length content) = ContentLength resp).
Proof.
  intros (resp & -> & _ & _ & Hlen & ->)%download_success_inv.
  exists resp. split_and!.
  - done.
  - by rewrite lookup_insert_eq.
  - rewrite lookup_insert_ne by (intros E; by apply (tmp_of_ne dst)).
    by rewrite lookup_delete_eq.
  - intros p Hd Ht. by rewrite lookup_insert_ne, lookup_delete_ne.
  - intros Hpos. eexists. split; [by rewrite lookup_insert_eq|auto].
Qed.

Lemma download_frame reply faults (fs : FS) src dst p :
  p ≠ dst → p ≠ tmp_of dst →
  (download reply faults fs src dst).1 !! p = fs !! p.
Proof.
  intros Hd Ht.
  destruct (download reply faults fs src dst) as [fs' [e|]] eqn:E; cbn.
  - apply download_failure_cases in E.
    destruct e;
      first [ by subst fs'
            | subst fs'; by rewrite lookup_delete_ne
            | destruct E as [written ->]; by rewrite lookup_insert_ne
            | done ].
  - apply download_success_inv in E as (resp & _ & _ & _ & _ & ->).
    by rewrite lookup_insert_ne, lookup_delete_ne.
Qed.

(** X2: whatever its outcome, [download] changes no path other than the
    destination and its temporary file. *)
Theorem download_touches_only_dst_and_tmp reply faults (fs : FS) src dst p :
  p ≠ dst → p ≠ tmp_of dst →
  (download reply faults fs src dst).1 !! p = fs !! p.
Proof. apply download_frame. Qed.

(** [download] returns no error exactly when [download_ok] holds. *)
Lemma download_ok_iff reply faults (fs : FS) src dst :
  (download reply faults fs src dst).2 = None ↔ download_ok reply faults src = true.
Proof.
  unfold download, download_ok.
  destruct (NetUrl.Parse src); [|done].
  destruct reply as [|resp]; [done|].
  destruct (StatusCode resp =? 200); [|done]. cbn.
  destruct (create_fails faults); [done|].
  destruct (io_Copy (Body resp) faults) as [written copyErr]. cbn.
  destruct copyErr; [done|].
  destruct (close_fails faults); [done|]. cbn.
  destruct (0 <? ContentLength resp).
  - destruct (stat_fails faults); [done|]. cbn.
    destruct (Z.of_nat _ =? ContentLength resp); [|done]. cbn.
    by destruct (rename_fails faults).
  - by destruct (rename_fails faults).
Qed.

(** X4: when the final rename fails, [download] returns that error and
    the temporary file stays behind, holding the whole body; the
    destination is as before. *)
Theorem download_rename_failure_keeps_tmp resp faults (fs : FS) src dst :
  is_Some (NetUrl.Parse src) →
  StatusCode resp = 200 →
  io_Copy (Body resp) faults = (bs_bytes (Body resp), false) →
  create_fails faults = false → close_fails faults = false →
  stat_fails faults = false →
  (0 < ContentLength resp →
   Z.of_nat (String.length (bs_bytes (Body resp))) = ContentLength resp) →
  rename_fails faults = true →
  ∃ fs', download (DoResp resp) faults fs src dst = (fs', Some ErrRename)
         ∧ fs' !! tmp_of dst = Some (bs_bytes (Body resp))
         ∧ fs' !! dst = fs !! dst.
Proof.
  intros [pu Hpu] Hs Hc Hcr Hcl Hst Hlen Hrn.
  unfold download. rewrite Hpu, Hs, Hcr, Hc, Hcl, Hst, Hrn. cbn.
  destruct (0 <? ContentLength resp) eqn:Hpos.
  - apply Z.ltb_lt in Hpos. rewrite (Hlen Hpos), Z.eqb_refl. cbn.
    eexists. split; [done|]. rewrite lookup_insert_eq.
    by rewrite !lookup_insert_ne by apply tmp_of_ne.
  - eexists. split; [done|]. rewrite lookup_insert_eq.
    by rewrite !lookup_insert_ne by apply tmp_of_ne.
Qed.

(** ** [dedupe], [fetchOnce], [fileNameFromURL], [firstNonEmpty] *)

Lemma filter_other_URLs (u : string) (l : list spotImage) :
  u ∉ URL <$> l → filter (λ x, URL x ≠ u) l = l.
Proof.
  induction l as [|y l IH]; [done|].
  rewrite fmap_cons, not_elem_of_cons. intros [Hy Hl].
  rewrite filter_cons_True by congruence. f_equal. by apply IH.
Qed.

(** A list whose URLs are distinct and not empty is its own list of first
    occurrences. *)
Lemma first_occurrences_fixed (l : list spotImage) :
  NoDup (URL <$> l) → (∀ im, im ∈ l → URL im ≠ "") → first_occurrences l = l.
Proof.
  induction l as [|x l IH]; [done|].
  rewrite fmap_cons, NoDup_cons. intros [Hx Hnd] Hne. cbn.
  assert (URL x ≠ "") as Hx0 by (apply Hne; left).
  apply string_eqb_false in Hx0. rewrite Hx0. f_equal.
  rewrite IH; [|done|by intros im ?; apply Hne; right].
  by apply filter_other_URLs.
Qed.

(** X5: [dedupe] is idempotent, and it returns a list unchanged when the
    URLs of the list are pairwise distinct and none is empty. *)
Theorem dedupe_idempotent :
  (∀ l, dedupe (dedupe l) = dedupe l)
  ∧ (∀ l, NoDup (URL <$> l) → (∀ im, im ∈ l → URL im ≠ "") → dedupe l = l).
Proof.
  split.
  - intros l. rewrite !dedupe_first_occurrences.
    apply first_occurrences_fixed.
    + apply first_occurrences_NoDup.
    + intros im. apply first_occurrences_nonempty.
  - intros l Hnd Hne. rewrite dedupe_first_occurrences.
    by apply first_occurrences_fixed.
Qed.

Lemma dedupe_idempotent_witness :
  NoDup (URL <$> [Demo.image]) ∧ dedupe [Demo.image] = [Demo.image].
Proof.
  assert (NoDup (URL <$> [Demo.image])) as Hnd.
  { cbn. apply NoDup_singleton. }
  split; [exact Hnd|].
  apply (proj2 dedupe_idempotent [Demo.image] Hnd).
  intros im ->%list_elem_of_singleton. vm_compute. discriminate.
Defined.

Lemma collect_length (dec_env : string → option adEnvelope) (items : list string) :
  (length (collect dec_env items) ≤ length items)%nat.
Proof.
  induction items as [|it items IH]; cbn; [done|].
  destruct (image_of_item dec_env it); cbn; lia.
Qed.

(** X6: the descriptors [fetchOnce] returns have pairwise distinct URLs,
    each carries the file name that [fileNameFromURL] derives from its URL
    (the name [main] computes again), and there are at most as many as the
    batch has items. *)
Theorem fetchOnce_distinct_and_consistent
    (dec_root : body_stream → option root) (dec_env : string → option adEnvelope)
    net country locale imgs :
  fetchOnce dec_root dec_env net country locale = Ok imgs →
  NoDup (URL <$> imgs)
  ∧ (∀ im, im ∈ imgs → FileName im = fileNameFromURL (URL im))
  ∧ ∃ resp r, net (buildAPIURL country locale).1 = DoResp resp
              ∧ dec_root (Body resp) = Some r
              ∧ (length imgs ≤ length (Items r))%nat.
Proof.
  intros (resp & r & Hnet & _ & Hdec & ->)%fetchOnce_Ok. split_and!.
  - rewrite dedupe_first_occurrences. apply first_occurrences_NoDup.
  - intros im (item & _ & Himg)%elem_of_dedupe%elem_of_collect.
    unfold image_of_item in Himg. destruct (dec_env item) as [env|]; [|done].
    by apply image_of_envelope_accepted in Himg as (a & img & _ & _ & _ & _ & ->).
  - exists resp, r. split_and!; [done|done|].
    etrans; [|apply (collect_length dec_env)].
    rewrite dedupe_first_occurrences.
    apply sublist_length, first_occurrences_sublist.
Qed.

Lemma fetchOnce_distinct_and_consistent_witness :
  fetchOnce Demo.dec_root Demo.dec_env (api_reply Demo.offline 0) "US" "en-US"
  = Ok [Demo.image]
  ∧ NoDup (URL <$> [Demo.image]).
Proof.
  assert (fetchOnce Demo.dec_root Demo.dec_env (api_reply Demo.offline 0) "US" "en-US"
          = Ok [Demo.image]) as Hf by (vm_compute; reflexivity).
  split; [exact Hf|].
  exact (proj1 (fetchOnce_distinct_and_consistent _ _ _ _ _ _ Hf)).
Defined.

(** X7: [fileNameFromURL] returns the empty string exactly when
    [url.Parse] refuses the URL, so the test [name == ""] of [main] skips
    the unparsable URLs and no others. *)
Theorem fileNameFromURL_empty_iff (u : string) :
  fileNameFromURL u = "" ↔ NetUrl.Parse u = None.
Proof.
  unfold fileNameFromURL. destruct (NetUrl.Parse u) as [pu|]; [|done].
  split; [|done]. intros He.
  pose proof (with_default_ext_has_dot (strip_query (FilePath.Base (NetUrl.Path pu))))
    as Hdot.
  unfold with_default_ext, strip_query in Hdot. rewrite He in Hdot. done.
Qed.

(** X8: [firstNonEmpty] returns the empty string exactly when both fields
    are blank, and a first field that is not blank is returned whatever the
    second one is. *)
Theorem firstNonEmpty_empty_iff (a b : string) :
  (firstNonEmpty a b = "" ↔ TrimSpace a = "" ∧ TrimSpace b = "")
  ∧ (TrimSpace a ≠ "" → firstNonEmpty a b = a)
  ∧ (TrimSpace a = "" → firstNonEmpty a b = TrimSpace b).
Proof.
  unfold firstNonEmpty.
  destruct (NetUrl.string_eqb (TrimSpace a) "") eqn:E; cbn.
  - apply string_eqb_true in E. split_and!; [|done|done]. split; [done|by intros []].
  - apply string_eqb_false in E. split_and!; [|done|done].
    split; [|by intros []]. intros ->. by destruct E.
Qed.

(** ** [buildAPIURL] *)

Lemma escape_cons (c : ascii) (s : string) (mode : NetUrl.encoding) :
  NetUrl.escape (String c s) mode = escape_byte c mode +:+ NetUrl.escape s mode.
Proof.
  unfold escape_byte. cbn [NetUrl.escape].
  destruct (NetUrl.shouldEscape c mode); [|done].
  destruct (ascii_dec c " "); [by destruct mode|done].
Qed.

Lemma escape_byte_query_safe (c : ascii) :
  NetUrl.all_bytes query_safe (escape_byte c NetUrl.encodeQueryComponent) = true.
Proof. destruct c as [[] [] [] [] [] [] [] []]; vm_compute; reflexivity. Qed.

Lemma all_bytes_append (p : ascii → bool) (a b : string) :
  NetUrl.all_bytes p (a +:+ b) = NetUrl.all_bytes p a && NetUrl.all_bytes p b.
Proof.
  induction a as [|c a IH]; [done|].
  change (String c a +:+ b) with (String c (a +:+ b)). cbn. by rewrite IH, andb_assoc.
Qed.

(** [QueryEscape] writes safe bytes only. *)
Lemma QueryEscape_safe (s : string) :
  NetUrl.all_bytes query_safe (NetUrl.QueryEscape s) = true.
Proof.
  unfold NetUrl.QueryEscape. induction s as [|c s IH]; [done|].
  by rewrite escape_cons, all_bytes_append, escape_byte_query_safe, IH.
Qed.

Lemma CountByte_append (a b : string) (c : ascii) :
  CountByte (a +:+ b) c = (CountByte a c + CountByte b c)%nat.
Proof.
  induction a as [|d a IH]; [done|].
  change (String d a +:+ b) with (String d (a +:+ b)). cbn. rewrite IH. lia.
Qed.

Lemma CountByte_safe (s : string) (c : ascii) :
  query_safe c = false → NetUrl.all_bytes query_safe s = true → CountByte s c = 0%nat.
Proof.
  intros Hc. induction s as [|d s IH]; [done|]. cbn.
  intros [Hd Hs]%andb_true_iff. rewrite (IH Hs).
  destruct (ascii_dec d c) as [->|]; [congruence|done].
Qed.

Lemma append_nil_r (a : string) : a +:+ "" = a.
Proof.
  induction a as [|c a IH]; [done|].
  change (String c a +:+ "") with (String c (a +:+ "")). by rewrite IH.
Qed.

Lemma append_assoc (a b c : string) : (a +:+ b) +:+ c = a +:+ (b +:+ c).
Proof.
  induction a as [|d a IH]; [done|].
  change ((String d a +:+ b) +:+ c) with (String d ((a +:+ b) +:+ c)). by rewrite IH.
Qed.

(** [URL.String] of the endpoint with a query set. *)
Lemma String_with_query (u0 : NetUrl.URL) (q : string) :
  NetUrl.Parse api_base = Some u0 → q ≠ "" →
  NetUrl.String_ (NetUrl.set_RawQuery u0 q) = api_base +:+ "?" +:+ q.
Proof.
  intros Hu Hq. vm_compute in Hu. injection Hu as <-.
  apply string_eqb_false in Hq.
  unfold NetUrl.String_, NetUrl.set_RawQuery.
  cbn [NetUrl.Scheme NetUrl.Opaque NetUrl.User NetUrl.Host NetUrl.Path NetUrl.RawPath
       NetUrl.OmitHost NetUrl.ForceQuery NetUrl.RawQuery NetUrl.Fragment NetUrl.RawFragment].
  rewrite Hq. cbn [negb orb].
  match goal with
  | |- ?b +:+ ?m +:+ ?f = _ => change f with ""; change b with api_base
  end.
  by rewrite append_nil_r.
Qed.

(** [Values.Encode] of the five parameters. *)
Lemma Encode_query (country locale : string) :
  NetUrl.Encode
    [("placement", ["88000820"]); ("bcnt", ["4"]); ("country", [country]);
     ("locale", [locale]); ("fmt", ["json"])]
  = "bcnt=4&country=" +:+ NetUrl.QueryEscape country
    +:+ "&fmt=json&locale=" +:+ NetUrl.QueryEscape locale +:+ "&placement=88000820".
Proof.
  unfold NetUrl.Encode.
  assert (NetUrl.sort_keys
            [("placement", ["88000820"]); ("bcnt", ["4"]); ("country", [country]);
             ("locale", [locale]); ("fmt", ["json"])]
          = [("bcnt", ["4"]); ("country", [country]); ("fmt", ["json"]);
             ("locale", [locale]); ("placement", ["88000820"])]) as ->
    by (vm_compute; reflexivity).
  cbn [map concat app NetUrl.encode_pairs NetUrl.join_amp fst snd].
  change (NetUrl.QueryEscape "bcnt") with "bcnt".
  change (NetUrl.QueryEscape "4") with "4".
  change (NetUrl.QueryEscape "country") with "country".
  change (NetUrl.QueryEscape "fmt") with "fmt".
  change (NetUrl.QueryEscape "json") with "json".
  change (NetUrl.QueryEscape "locale") with "locale".
  change (NetUrl.QueryEscape "placement") with "placement".
  change (NetUrl.QueryEscape "88000820") with "88000820".
  rewrite !append_assoc. reflexivity.
Qed.

(** The request URL, for any country and locale. *)
Lemma buildAPIURL_string (country locale : string) :
  (buildAPIURL country locale).1
  = api_base +:+ "?bcnt=4&country=" +:+ NetUrl.QueryEscape country
    +:+ "&fmt=json&locale=" +:+ NetUrl.QueryEscape locale +:+ "&placement=88000820".
Proof.
  unfold buildAPIURL.
  destruct (NetUrl.Parse api_base) as [u0|] eqn:Hu; [|by vm_compute in Hu].
  cbn [buildAPIURL_from fst]. rewrite Encode_query.
  rewrite (String_with_query u0 _ Hu); [|done].
  reflexivity.
Qed.

(** X9: for every country and locale, the request URL is the endpoint
    followed by the five parameters in the order of their keys, with the
    country and the locale query-escaped.  Whatever the two strings hold,
    the URL has exactly four '&', one '?', and no '#' and no blank: the
    inputs cannot add, cut or end a parameter. *)
Theorem buildAPIURL_shape (country locale : string) :
  let url := (buildAPIURL country locale).1 in
  url = api_base +:+ "?bcnt=4&country=" +:+ NetUrl.QueryEscape country
        +:+ "&fmt=json&locale=" +:+ NetUrl.QueryEscape locale +:+ "&placement=88000820"
  ∧ CountByte url "&" = 4%nat
  ∧ CountByte url "?" = 1%nat
  ∧ CountByte url "#" = 0%nat
  ∧ CountByte url " " = 0%nat.
Proof.
  cbn zeta. rewrite buildAPIURL_string. split; [done|].
  rewrite !CountByte_append.
  rewrite !(CountByte_safe (NetUrl.QueryEscape _)) by (done || apply QueryEscape_safe).
  by vm_compute.
Qed.

(** ** The loop of [main] *)

Lemma wrap_int_succ (a : Z) : wrap_int (wrap_int a + 1) = wrap_int (a + 1).
Proof.
  unfold wrap_int.
  replace ((a + 2 ^ 63) mod 2 ^ 64 - 2 ^ 63 + 1 + 2 ^ 63)
    with ((a + 2 ^ 63) mod 2 ^ 64 + 1) by lia.
  rewrite Zplus_mod_idemp_l. f_equal. f_equal. lia.
Qed.

Lemma wrap_int_small (a : Z) : - 2 ^ 63 ≤ a < 2 ^ 63 → wrap_int a = a.
Proof. intros H. unfold wrap_int. rewrite Z.mod_small; lia. Qed.

Section Run.

Variable dec_root : body_stream → option root.
Variable dec_env : string → option adEnvelope.
Variable join : string → string → string.
Variable w : world.
Variable cfg : config.

(** The three ways the loop body can go for one descriptor: no call of
    [download]; a call that fails; a call that succeeds. *)
Lemma process_image_step st k im :
  ∃ st' k', process_image join w cfg (st, k) im = (st', k')
    ∧ seen st ⊆ seen st' ∧ URL im ∈ seen st'
    ∧ seen st' ⊆ {[URL im]} ∪ seen st
    ∧ emptyRounds st' = emptyRounds st
    ∧ ((download_srcs (trace st') = download_srcs (trace st)
        ∧ printed_paths (trace st') = printed_paths (trace st)
        ∧ totalNew st' = totalNew st ∧ k' = k)
       ∨ ((URL im ∉ seen st)
          ∧ download_srcs (trace st') = download_srcs (trace st) ++ [URL im]
          ∧ printed_paths (trace st') = printed_paths (trace st)
          ∧ totalNew st' = totalNew st ∧ k' = k)
       ∨ ((URL im ∉ seen st)
          ∧ download_srcs (trace st') = download_srcs (trace st) ++ [URL im]
          ∧ printed_paths (trace st')
            = printed_paths (trace st) ++ [dest_path join cfg im]
          ∧ totalNew st' = wrap_int (totalNew st + 1) ∧ k' = S k)).
Proof using join w cfg.
  clear dec_root dec_env.
  unfold process_image, dest_path, download_srcs, printed_paths.
  case_bool_decide as Hs.
  { eexists _, _. split; [reflexivity|].
    split_and!; [set_solver|set_solver|set_solver|reflexivity|]. by left. }
  destruct (NetUrl.string_eqb _ "").
  { eexists _, _. split; [reflexivity|]. cbn.
    split_and!; [set_solver|set_solver|set_solver|reflexivity|]. by left. }
  cbn [files]. destruct (exists_ _ _ _).
  { eexists _, _. split; [reflexivity|]. destruct (verbose cfg); cbn.
    - split_and!; [set_solver|set_solver|set_solver|reflexivity|].
      left. by rewrite !omap_app, !app_nil_r.
    - split_and!; [set_solver|set_solver|set_solver|reflexivity|]. by left. }
  cbn [log trace files seen emptyRounds totalNew].
  destruct (download _ _ _ _ _) as [fs' [e|]].
  - eexists _, _. split; [reflexivity|]. destruct (verbose cfg); cbn.
    + split_and!; [set_solver|set_solver|set_solver|reflexivity|].
      right; left. rewrite !omap_app. cbn. by rewrite ?app_nil_r.
    + split_and!; [set_solver|set_solver|set_solver|reflexivity|].
      right; left. rewrite !omap_app. cbn. by rewrite ?app_nil_r.
  - eexists _, _. split; [reflexivity|]. cbn.
    split_and!; [set_solver|set_solver|set_solver|reflexivity|].
    right; right. rewrite !omap_app. cbn. by rewrite ?app_nil_r.
Qed.

Lemma process_image_invariant st k im :
  run_invariant st → run_invariant (process_image join w cfg (st, k) im).1.
Proof using join w cfg.
  clear dec_root dec_env.
  intros (Hnd & Hseen & Htot & Hlen & Hem).
  destruct (process_image_step st k im)
    as (st' & k' & -> & Hsub & Hin & _ & He & Hcases). cbn [fst].
  unfold run_invariant. rewrite He.
  assert (∀ u, u ∈ download_srcs (trace st) ++ [URL im] → u ∈ seen st') as Hseen'.
  { intros u [Hu|Hu]%elem_of_app; [by apply Hsub, Hseen|].
    by apply list_elem_of_singleton in Hu as ->. }
  assert (URL im ∉ seen st → NoDup (download_srcs (trace st) ++ [URL im])) as Hnd'.
  { intros Hnew. apply NoDup_app. split; [done|]. split; [|apply NoDup_singleton].
    intros u Hu ->%list_elem_of_singleton. by apply Hnew, Hseen. }
  destruct Hcases as [(E1 & E2 & E3 & _)|[(Hnew & E1 & E2 & E3 & _)|(Hnew & E1 & E2 & E3 & _)]];
    rewrite E1, E2, E3.
  - split_and!; [done| |done|done|done]. intros u Hu. by apply Hsub, Hseen.
  - split_and!; [by apply Hnd'|done|done| |done]. rewrite length_app. cbn. lia.
  - split_and!; [by apply Hnd'|done| | |done].
    + rewrite Htot, wrap_int_succ, length_app. cbn. f_equal. lia.
    + rewrite !length_app. cbn. lia.
Qed.

Lemma process_images_invariant imgs : ∀ st k,
  run_invariant st →
  run_invariant (fold_left (process_image join w cfg) imgs (st, k)).1.
Proof using join w cfg.
  clear dec_root dec_env.
  induction imgs as [|im imgs IH]; intros st k Hinv; [done|].
  cbn [fold_left].
  pose proof (process_image_invariant st k im Hinv) as Hinv'.
  destruct (process_image join w cfg (st, k) im) as [st1 k1]. by apply IH.
Qed.

(** The descriptors of a batch end up in [seen], which only grows. *)
Lemma process_images_seen imgs : ∀ st k,
  let st' := (fold_left (process_image join w cfg) imgs (st, k)).1 in
  seen st ⊆ seen st' ∧ (∀ im, im ∈ imgs → URL im ∈ seen st')
  ∧ seen st' ⊆ list_to_set (URL <$> imgs) ∪ seen st.
Proof using join w cfg.
  clear dec_root dec_env.
  induction imgs as [|im imgs IH]; intros st k; cbn zeta.
  - cbn. split_and!; [done|by intros ? ?%not_elem_of_nil|set_solver].
  - cbn [fold_left].
    destruct (process_image_step st k im) as (st1 & k1 & -> & Hsub & Hin & Hup & _).
    destruct (IH st1 k1) as (Hsub' & Hall & Hup').
    split_and!.
    + set_solver.
    + intros im' [->|?]%elem_of_cons; [set_solver|by apply Hall].
    + rewrite fmap_cons. cbn [list_to_set]. set_solver.
Qed.

(** A round counts one for each path it prints, and no more than the
    batch has descriptors. *)
Lemma process_images_count imgs : ∀ st k,
  let acc := fold_left (process_image join w cfg) imgs (st, k) in
  (length (printed_paths (trace acc.1)) + k
   = length (printed_paths (trace st)) + acc.2)%nat
  ∧ (acc.2 ≤ k + length imgs)%nat.
Proof using join w cfg.
  clear dec_root dec_env.
  induction imgs as [|im imgs IH]; intros st k; cbn zeta; [cbn; lia|].
  cbn [fold_left].
  destruct (process_image_step st k im) as (st1 & k1 & -> & _ & _ & _ & _ & Hcases).
  destruct (IH st1 k1) as (Hc & Hb). cbn [length].
  destruct Hcases as [(_ & E & _ & ->)|[(_ & _ & E & _ & ->)|(_ & _ & E & _ & ->)]];
    rewrite E in Hc; rewrite ?length_app in Hc; cbn in Hc; lia.
Qed.

Lemma run_invariant_log e st :
  match e with EvDownload _ _ | EvPrintPath _ => False | _ => True end →
  run_invariant st → run_invariant (log e st).
Proof.
  intros He (? & ? & ? & ? & ?).
  unfold run_invariant, log, download_srcs, printed_paths in *. cbn.
  rewrite !omap_app. destruct e; try done; cbn; rewrite !app_nil_r; done.
Qed.

Lemma round_invariant r st st' k :
  run_invariant st → (emptyRounds st < maxEmptyRounds)%nat →
  round dec_root dec_env join w cfg r st = Ok (st', k) →
  run_invariant st'.
Proof.
  intros Hinv Hlt. unfold round, process_images.
  destruct (fetchOnce _ _ _ _ _) as [imgs|]; [|done].
  assert (run_invariant (log (EvFetch r) st)) as Hinv0 by by apply run_invariant_log.
  pose proof (process_images_invariant imgs _ O Hinv0) as Hinv1.
  pose proof (process_images_emptyRounds join w cfg (log (EvFetch r) st) imgs) as He.
  unfold process_images in He.
  destruct (fold_left _ imgs _) as [st1 k1]. cbn in He, Hinv1 |- *.
  intros [= <- <-].
  destruct Hinv1 as (? & ? & ? & ? & ?). unfold end_round.
  destruct k1.
  - apply (run_invariant_log EvSleep); [done|]. unfold run_invariant. cbn.
    split_and!; try done. lia.
  - unfold run_invariant. cbn. split_and!; try done. lia.
Qed.

(** The invariant holds in whatever state the loop is left. *)
Lemma poll_loop_invariant fuel : ∀ r st x st' n,
  run_invariant st →
  poll_loop dec_root dec_env join w cfg fuel r st = Some (x, st', n) →
  run_invariant st'
  ∧ match x with
    | ExitOK => emptyRounds st' = maxEmptyRounds
    | ExitFatal e =>
        (emptyRounds st' < maxEmptyRounds)%nat
        ∧ fetchOnce dec_root dec_env (api_reply w n) (country cfg) (locale cfg) = Err e
    end.
Proof.
  assert (∀ st, run_invariant st → (maxEmptyRounds ≤ emptyRounds st)%nat →
            run_invariant (log_if (verbose cfg) (EvDone (totalNew st)) st)
            ∧ emptyRounds (log_if (verbose cfg) (EvDone (totalNew st)) st)
              = maxEmptyRounds) as Hdone.
  { intros st Hinv Hge. split.
    - destruct (verbose cfg); [by apply run_invariant_log|done].
    - destruct Hinv as (_ & _ & _ & _ & ?). destruct (verbose cfg); cbn; lia. }
  induction fuel as [|fuel IH]; intros r st x st' n Hinv; cbn [poll_loop];
    destruct (emptyRounds st <? maxEmptyRounds)%nat eqn:Hlt.
  - done.
  - apply Nat.ltb_ge in Hlt. intros [= <- <- <-]. by apply Hdone.
  - apply Nat.ltb_lt in Hlt.
    destruct (round _ _ _ _ _ r st) as [[st1 k]|e] eqn:Hr.
    + intros Hp. eapply IH; [|exact Hp]. by eapply round_invariant.
    + intros [= <- <- <-]. split; [done|]. split; [done|].
      unfold round in Hr. revert Hr.
      destruct (fetchOnce _ _ _ _ _); [done|]. by intros [= ->].
  - apply Nat.ltb_ge in Hlt. intros [= <- <- <-]. by apply Hdone.
Qed.

Lemma initial_state_invariant (fs : FS) : run_invariant (initial_state fs).
Proof.
  unfold run_invariant, initial_state. cbn.
  split_and!; [constructor|by intros ? ?%not_elem_of_nil|done|done|].
  unfold maxEmptyRounds. lia.
Qed.

End Run.

(** X10: a round only adds to [seen], and what it adds are the URLs of the
    batch: after the round every descriptor of the batch is in [seen],
    whether it was downloaded, skipped or failed. *)
Theorem round_records_offered_urls
    (dec_root : body_stream → option root) (dec_env : string → option adEnvelope)
    (join : string → string → string) (w : world) (cfg : config) r st st' k imgs :
  fetchOnce dec_root dec_env (api_reply w r) (country cfg) (locale cfg) = Ok imgs →
  round dec_root dec_env join w cfg r st = Ok (st', k) →
  seen st ⊆ seen st'
  ∧ (∀ im, im ∈ imgs → URL im ∈ seen st')
  ∧ seen st' ⊆ list_to_set (URL <$> imgs) ∪ seen st.
Proof.
  intros Hf. unfold round, process_images. rewrite Hf.
  pose proof (process_images_seen join w cfg imgs (log (EvFetch r) st) O) as Hs.
  cbn zeta in Hs. destruct (fold_left _ imgs _) as [st1 k1]. cbn in Hs |- *.
  intros [= <- <-]. unfold end_round. by destruct k1.
Qed.

(** X11: however a run of [main] ends, no URL was handed to [download]
    twice during the run, and every URL handed to it is in [seen]; so a
    download that failed is not tried again in the same run. *)
Theorem main_downloads_each_url_once
    (dec_root : body_stream → option root) (dec_env : string → option adEnvelope)
    (join : string → string → string) (w : world) (cfg : config) fuel fs x st' n :
  main dec_root dec_env join w cfg fuel fs = Some (x, st', n) →
  NoDup (download_srcs (trace st'))
  ∧ (∀ u, u ∈ download_srcs (trace st') → u ∈ seen st').
Proof.
  intros Hm.
  by destruct (poll_loop_invariant dec_root dec_env join w cfg fuel 0 (initial_state fs)
                 x st' n (initial_state_invariant fs) Hm) as [(Hnd & Hseen & _) _].
Qed.

(** X12: however a run of [main] ends, [totalNew] is the number of paths
    the run has printed, taken as a 64-bit Go [int] (it is that number
    itself below 2^63), and no more paths were printed than [download] was
    called. *)
Theorem main_totalNew_counts_printed_paths
    (dec_root : body_stream → option root) (dec_env : string → option adEnvelope)
    (join : string → string → string) (w : world) (cfg : config) fuel fs x st' n :
  main dec_root dec_env join w cfg fuel fs = Some (x, st', n) →
  totalNew st' = wrap_int (Z.of_nat (length (printed_paths (trace st'))))
  ∧ (Z.of_nat (length (printed_paths (trace st'))) < 2 ^ 63 →
     totalNew st' = Z.of_nat (length (printed_paths (trace st'))))
  ∧ (length (printed_paths (trace st')) ≤ length (download_srcs (trace st')))%nat.
Proof.
  intros Hm.
  destruct (poll_loop_invariant dec_root dec_env join w cfg fuel 0 (initial_state fs)
              x st' n (initial_state_invariant fs) Hm) as [(_ & _ & Htot & Hlen & _) _].
  split_and!; [done| |done].
  intros Hsmall. rewrite Htot. apply wrap_int_small. lia.
Qed.

(** X13: [main] leaves its loop in one of two ways only.  It returns
    normally, with status 0, when [emptyRounds] has reached 50, or it ends
    through [fatal], with status 1, in a round in which [fetchOnce] returned
    the error, before [emptyRounds] reached 50; [emptyRounds] never exceeds
    50. *)
Theorem main_exit_reasons
    (dec_root : body_stream → option root) (dec_env : string → option adEnvelope)
    (join : string → string → string) (w : world) (cfg : config) fuel fs x st' n :
  main dec_root dec_env join w cfg fuel fs = Some (x, st', n) →
  (emptyRounds st' ≤ 50)%nat
  ∧ match x with
    | ExitOK => emptyRounds st' = 50%nat ∧ exit_status x = 0
    | ExitFatal e =>
        (emptyRounds st' < 50)%nat ∧ exit_status x = 1
        ∧ fetchOnce dec_root dec_env (api_reply w n) (country cfg) (locale cfg) = Err e
    end.
Proof.
  intros Hm.
  destruct (poll_loop_invariant dec_root dec_env join w cfg fuel 0 (initial_state fs)
              x st' n (initial_state_invariant fs) Hm) as [(_ & _ & _ & _ & Hle) Hx].
  split; [exact Hle|]. destruct x as [|e]; [done|]. by destruct Hx.
Qed.

(** X14: the number a round counts in [newInRound] is the number of paths
    it prints, and it is at most the number of descriptors of the batch. *)
Theorem round_counts_printed_paths
    (dec_root : body_stream → option root) (dec_env : string → option adEnvelope)
    (join : string → string → string) (w : world) (cfg : config) r st st' k imgs :
  fetchOnce dec_root dec_env (api_reply w r) (country cfg) (locale cfg) = Ok imgs →
  round dec_root dec_env join w cfg r st = Ok (st', k) →
  length (printed_paths (trace st')) = (length (printed_paths (trace st)) + k)%nat
  ∧ (k ≤ length imgs)%nat.
Proof.
  intros Hf. unfold round, process_images. rewrite Hf.
  pose proof (process_images_count join w cfg imgs (log (EvFetch r) st) O) as Hc.
  cbn zeta in Hc. destruct (fold_left _ imgs _) as [st1 k1]. cbn in Hc |- *.
  intros [= <- <-]. destruct Hc as [Hc Hb]. split; [|lia].
  unfold printed_paths in *. rewrite omap_app in Hc. cbn in Hc.
  rewrite app_nil_r in Hc. unfold end_round.
  destruct k1; cbn; rewrite ?omap_app; cbn; rewrite ?app_nil_r; lia.
Qed.

(** ** [resolveLocale] *)

Example resolveLocale_examples :
  map (λ '(LANG, spec), resolveLocale (λ s, s) LANG spec)
      [("", "de-at"); ("en_GB.UTF-8", ""); ("", ""); ("C", "fr"); ("pt_BR", "x-y-z")]
  = [("de-at", "AT"); ("en-GB", "GB"); ("en-US", "US"); ("C", "US"); ("pt-BR", "BR")].
Proof. vm_compute. reflexivity. Qed.

Lemma Split_length (s : string) (sep : ascii) :
  length (Split s sep) = S (CountByte s sep).
Proof.
  induction s as [|d s IH]; [done|]. cbn.
  destruct (ascii_dec d sep); cbn; [by rewrite IH|].
  destruct (Split s sep); cbn in *; [done|lia].
Qed.

Lemma Split_none (s : string) (sep : ascii) :
  CountByte s sep = 0%nat → Split s sep = [s].
Proof.
  induction s as [|d s IH]; [done|]. cbn.
  destruct (ascii_dec d sep); [done|]. cbn. intros Hc. by rewrite IH.
Qed.

(** With exactly one separator there are two pieces, and the string is the
    first piece, the separator, the second piece. *)
Lemma Split_two (s : string) (sep : ascii) :
  CountByte s sep = 1%nat →
  ∃ a b, Split s sep = [a; b] ∧ s = a +:+ String sep b.
Proof.
  induction s as [|d s IH]; [done|]. cbn.
  destruct (ascii_dec d sep) as [->|Hd]; cbn.
  - intros [= Hc]. rewrite (Split_none s sep Hc). by exists "", s.
  - intros Hc. destruct (IH Hc) as (a & b & -> & ->).
    by exists (String d a), b.
Qed.

Lemma IndexByte_None_CountByte (s : string) (c : ascii) :
  IndexByte s c = None ↔ CountByte s c = 0%nat.
Proof.
  induction s as [|d s IH]; [done|]. cbn.
  destruct (ascii_dec d c); [done|].
  destruct (IndexByte s c); cbn; split; try done; intros H; by apply IH in H.
Qed.

Lemma ReplaceAll_removes (s : string) (old new : ascii) :
  old ≠ new → IndexByte (ReplaceAll s old new) old = None.
Proof.
  intros Hne. induction s as [|d s IH]; [done|]. cbn. rewrite IH.
  destruct (ascii_dec d old) as [->|Hd]; by destruct (ascii_dec _ old).
Qed.

Lemma ReplaceAll_keeps_absent (s : string) (old new c : ascii) :
  c ≠ new → IndexByte s c = None → IndexByte (ReplaceAll s old new) c = None.
Proof.
  intros Hne. induction s as [|d s IH]; [done|]. cbn.
  destruct (ascii_dec d c) as [->|Hd]; [done|].
  destruct (IndexByte s c) eqn:E; [done|]. intros _. rewrite IH by done.
  destruct (ascii_dec d old); by destruct (ascii_dec _ c).
Qed.

(** X15: a locale given on the command line is used exactly when it has
    one hyphen: then it is returned as it stands, with the upper-cased text
    behind the hyphen as the country, and the environment is not looked at;
    a locale with no hyphen or several is dropped without notice and the
    result is the one for an empty flag. *)
Theorem resolveLocale_flag (unicode_upper : string → string) (LANG spec : string) :
  (CountByte spec "-" = 1%nat →
   ∃ lang region,
     spec = lang +:+ "-" +:+ region
     ∧ resolveLocale unicode_upper LANG spec = (spec, ToUpper unicode_upper region))
  ∧ (CountByte spec "-" ≠ 1%nat →
     resolveLocale unicode_upper LANG spec = resolveLocale unicode_upper LANG "").
Proof.
  split.
  - intros Hc. destruct (Split_two spec "-" Hc) as (a & b & Hs & Heq).
    exists a, b. split; [done|]. unfold resolveLocale. rewrite Hs.
    assert (spec ≠ "") as Hne by (intros ->; done).
    apply string_eqb_false in Hne. by rewrite Hne.
  - intros Hc. unfold resolveLocale.
    destruct (NetUrl.string_eqb spec ""); [done|]. cbn [negb].
    pose proof (Split_length spec "-") as Hl.
    destruct (Split spec "-") as [|? [|? [|? ?]]]; try done.
    cbn in Hl. lia.
Qed.

(** X16: without a usable flag the locale comes from [LANG]: the default
    en-US/US when [LANG] is empty; otherwise the text before the first dot
    with every underscore turned into a hyphen, so that the locale has no
    dot and no underscore, and the country is US unless that text has
    exactly one hyphen. *)
Theorem resolveLocale_env (unicode_upper : string → string) (LANG : string) :
  resolveLocale unicode_upper "" "" = ("en-US", "US")
  ∧ (LANG ≠ "" →
     (resolveLocale unicode_upper LANG "").1
     = ReplaceAll (SplitN2_first LANG ".") "_" "-"
     ∧ IndexByte (resolveLocale unicode_upper LANG "").1 "_" = None
     ∧ IndexByte (resolveLocale unicode_upper LANG "").1 "." = None
     ∧ (CountByte (resolveLocale unicode_upper LANG "").1 "-" ≠ 1%nat →
        (resolveLocale unicode_upper LANG "").2 = "US")).
Proof.
  split; [done|]. intros Hne. apply string_eqb_false in Hne.
  unfold resolveLocale. cbn [NetUrl.string_eqb negb]. rewrite Hne.
  change (NetUrl.string_eqb "" "") with true. cbn [negb].
  set (lang := ReplaceAll (SplitN2_first LANG ".") "_" "-").
  assert ((match Split lang "-" with
           | [_; region] => (lang, ToUpper unicode_upper region)
           | _ => (lang, "US")
           end).1 = lang) as Hfst.
  { by destruct (Split lang "-") as [|? [|? [|? ?]]]. }
  rewrite Hfst. split_and!.
  - done.
  - by apply ReplaceAll_removes.
  - apply ReplaceAll_keeps_absent; [done|].
    unfold SplitN2_first. destruct (IndexByte LANG ".") eqn:E; [|done].
    by apply IndexByte_stake.
  - intros Hc. pose proof (Split_length lang "-") as Hl.
    destruct (Split lang "-") as [|? [|? [|? ?]]]; try done.
    cbn in Hl. lia.
Qed.

(** ** The further properties on the concrete world *)

Lemma download_success_stores_body_witness :
  download (DoResp (Demo.ok_response 3 "abc" false)) no_faults ∅ Demo.asset Demo.dst
  = ({[ Demo.dst := "abc" ]}, None)
  ∧ ({[ Demo.dst := "abc" ]} : FS) !! Demo.dst = Some "abc"
  ∧ ({[ Demo.dst := "abc" ]} : FS) !! tmp_of Demo.dst = None.
Proof.
  assert (download (DoResp (Demo.ok_response 3 "abc" false)) no_faults ∅
                   Demo.asset Demo.dst = ({[ Demo.dst := "abc" ]}, None)) as Hd
    by (vm_compute; reflexivity).
  destruct (download_success_stores_body _ _ _ _ _ _ Hd)
    as (resp & Hr & Hdst & Htmp & _).
  injection Hr as <-. by split_and!.
Defined.

Lemma download_touches_only_dst_and_tmp_witness :
  "wallpaper/other.jpg" ≠ Demo.dst
  ∧ "wallpaper/other.jpg" ≠ tmp_of Demo.dst
  ∧ (download (DoResp (Demo.ok_response 3 "abc" false)) no_faults
              {[ "wallpaper/other.jpg" := "xyz" ]} Demo.asset Demo.dst).1
    !! "wallpaper/other.jpg"
    = ({[ "wallpaper/other.jpg" := "xyz" ]} : FS) !! "wallpaper/other.jpg".
Proof.
  assert ("wallpaper/other.jpg" ≠ Demo.dst) as H1 by (vm_compute; discriminate).
  assert ("wallpaper/other.jpg" ≠ tmp_of Demo.dst) as H2 by (vm_compute; discriminate).
  split_and!; [exact H1|exact H2|].
  exact (download_touches_only_dst_and_tmp _ _ _ _ _ _ H1 H2).
Defined.

Lemma download_rename_failure_keeps_tmp_witness :
  let faults := {| create_fails := false; write_limit := None; close_fails := false;
                   stat_fails := false; rename_fails := true |} in
  rename_fails faults = true
  ∧ ∃ fs', download (DoResp (Demo.ok_response 3 "abc" false)) faults ∅
                    Demo.asset Demo.dst = (fs', Some ErrRename)
           ∧ fs' !! tmp_of Demo.dst = Some "abc"
           ∧ fs' !! Demo.dst = (∅ : FS) !! Demo.dst.
Proof.
  cbn zeta. split; [reflexivity|].
  apply (download_rename_failure_keeps_tmp (Demo.ok_response 3 "abc" false));
    try reflexivity.
  eexists. vm_compute. reflexivity.
Defined.

Lemma round_records_offered_urls_witness :
  fetchOnce Demo.dec_root Demo.dec_env (api_reply Demo.online 0)
            (country Demo.cfg) (locale Demo.cfg) = Ok [Demo.image]
  ∧ ∃ st' k, round Demo.dec_root Demo.dec_env Demo.join Demo.online Demo.cfg 0
                   (initial_state ∅) = Ok (st', k)
             ∧ URL Demo.image ∈ seen st'.
Proof.
  assert (fetchOnce Demo.dec_root Demo.dec_env (api_reply Demo.online 0)
                    (country Demo.cfg) (locale Demo.cfg) = Ok [Demo.image]) as Hf
    by (vm_compute; reflexivity).
  split; [exact Hf|].
  destruct (round Demo.dec_root Demo.dec_env Demo.join Demo.online Demo.cfg 0
                  (initial_state ∅)) as [[st' k]|e] eqn:Hr; [|by vm_compute in Hr].
  exists st', k. split; [reflexivity|].
  apply (proj1 (proj2 (round_records_offered_urls _ _ _ _ _ _ _ _ _ _ Hf Hr))).
  by left.
Defined.

Lemma round_counts_printed_paths_witness :
  fetchOnce Demo.dec_root Demo.dec_env (api_reply Demo.online 0)
            (country Demo.cfg) (locale Demo.cfg) = Ok [Demo.image]
  ∧ ∃ st' k, round Demo.dec_root Demo.dec_env Demo.join Demo.online Demo.cfg 0
                   (initial_state ∅) = Ok (st', k)
             ∧ (k ≤ length [Demo.image])%nat.
Proof.
  assert (fetchOnce Demo.dec_root Demo.dec_env (api_reply Demo.online 0)
                    (country Demo.cfg) (locale Demo.cfg) = Ok [Demo.image]) as Hf
    by (vm_compute; reflexivity).
  split; [exact Hf|].
  destruct (round Demo.dec_root Demo.dec_env Demo.join Demo.online Demo.cfg 0
                  (initial_state ∅)) as [[st' k]|e] eqn:Hr; [|by vm_compute in Hr].
  exists st', k. split; [reflexivity|].
  exact (proj2 (round_counts_printed_paths _ _ _ _ _ _ _ _ _ _ Hf Hr)).
Defined.

Lemma main_downloads_each_url_once_witness :
  ∃ x st' n, main Demo.dec_root Demo.dec_env Demo.join Demo.online Demo.cfg 51 ∅
             = Some (x, st', n)
             ∧ NoDup (download_srcs (trace st')).
Proof.
  destruct (main Demo.dec_root Demo.dec_env Demo.join Demo.online Demo.cfg 51 ∅)
    as [[[x st'] n]|] eqn:Hm; [|by vm_compute in Hm].
  exists x, st', n. split; [reflexivity|].
  exact (proj1 (main_downloads_each_url_once _ _ _ _ _ _ _ _ _ _ Hm)).
Defined.

Lemma main_totalNew_counts_printed_paths_witness :
  ∃ x st' n, main Demo.dec_root Demo.dec_env Demo.join Demo.online Demo.cfg 51 ∅
             = Some (x, st', n)
             ∧ totalNew st' = wrap_int (Z.of_nat (length (printed_paths (trace st')))).
Proof.
  destruct (main Demo.dec_root Demo.dec_env Demo.join Demo.online Demo.cfg 51 ∅)
    as [[[x st'] n]|] eqn:Hm; [|by vm_compute in Hm].
  exists x, st', n. split; [reflexivity|].
  exact (proj1 (main_totalNew_counts_printed_paths _ _ _ _ _ _ _ _ _ _ Hm)).
Defined.

Lemma main_exit_reasons_witness :
  ∃ x st' n, main Demo.dec_root Demo.dec_env Demo.join Demo.online Demo.cfg 51 ∅
             = Some (x, st', n)
             ∧ (emptyRounds st' ≤ 50)%nat.
Proof.
  destruct (main Demo.dec_root Demo.dec_env Demo.join Demo.online Demo.cfg 51 ∅)
    as [[[x st'] n]|] eqn:Hm; [|by vm_compute in Hm].
  exists x, st', n. split; [reflexivity|].
  exact (proj1 (main_exit_reasons _ _ _ _ _ _ _ _ _ _ Hm)).
Defined.

Lemma resolveLocale_flag_witness :
  CountByte "de-at" "-" = 1%nat
  ∧ ∃ lang region,
      "de-at" = lang +:+ "-" +:+ region
      ∧ resolveLocale (λ s, s) "en_GB.UTF-8" "de-at"
        = ("de-at", ToUpper (λ s, s) region).
Proof.
  split; [reflexivity|].
  exact (proj1 (resolveLocale_flag (λ s, s) "en_GB.UTF-8" "de-at") eq_refl).
Defined.

Lemma resolveLocale_env_witness :
  "en_GB.UTF-8" ≠ ""
  ∧ IndexByte (resolveLocale (λ s, s) "en_GB.UTF-8" "").1 "_" = None.
Proof.
  assert ("en_GB.UTF-8" ≠ "") as Hne by discriminate.
  split; [exact Hne|].
  exact (proj1 (proj2 (proj2 (resolveLocale_env (λ s, s) "en_GB.UTF-8") Hne))).
Defined.

(** ** One descriptor through the loop body *)

(** A failed [download] leaves the destination as it was. *)
Lemma download_failure_dst reply faults (fs : FS) src dst fs' e :
  download reply faults fs src dst = (fs', Some e) → fs' !! dst = fs !! dst.
Proof.
  intros Hd. apply download_failure_cases in Hd.
  destruct e;
    first [ by subst fs'
          | subst fs'; by rewrite lookup_delete_ne by apply tmp_of_ne
          | destruct Hd as [written ->];
            by rewrite lookup_insert_ne by apply tmp_of_ne
          | done ].
Qed.

(** X17: for a descriptor that was not seen, has a file name and has
    nothing at its destination (no file, no directory), the loop body calls
    [download] once.  If the call returns no error, the body of the answer
    is the file at the destination afterwards, the path is printed and the
    round counts one more; if it returns an error, nothing is counted or
    printed and there is still nothing at the destination. *)
Theorem process_image_downloads_new_file
    (join : string → string → string) (w : world) (cfg : config) st k im :
  URL im ∉ seen st →
  fileNameFromURL (URL im) ≠ "" →
  exists_ (dirs w) (files st) (dest_path join cfg im) = false →
  ∃ st' k', process_image join w cfg (st, k) im = (st', k')
    ∧ download_srcs (trace st') = download_srcs (trace st) ++ [URL im]
    ∧ match (download (asset_reply w (URL im)) (asset_faults w (URL im))
                      (files st) (URL im) (dest_path join cfg im)).2 with
      | None =>
          k' = S k
          ∧ printed_paths (trace st')
            = printed_paths (trace st) ++ [dest_path join cfg im]
          ∧ exists_ (dirs w) (files st') (dest_path join cfg im) = true
          ∧ ∃ resp, asset_reply w (URL im) = DoResp resp
                    ∧ files st' !! dest_path join cfg im = Some (bs_bytes (Body resp))
      | Some _ =>
          k' = k
          ∧ printed_paths (trace st') = printed_paths (trace st)
          ∧ exists_ (dirs w) (files st') (dest_path join cfg im) = false
      end.
Proof.
  intros Hs Hn Hex. unfold process_image.
  rewrite bool_decide_eq_false_2 by done.
  apply string_eqb_false in Hn. rewrite Hn. cbn [files].
  fold (dest_path join cfg im). rewrite Hex.
  cbn [log trace files seen emptyRounds totalNew].
  destruct (download _ _ _ _ _) as [fs' [e|]] eqn:Hd; cbn [snd].
  - pose proof (download_failure_dst _ _ _ _ _ _ _ Hd) as Hdst.
    eexists _, _. split; [reflexivity|].
    unfold download_srcs, printed_paths, exists_ in *.
    destruct (verbose cfg); cbn; rewrite ?omap_app; cbn; rewrite ?app_nil_r, ?Hdst;
      by split_and!.
  - apply download_success_inv in Hd as (resp & Hr & _ & _ & _ & ->).
    eexists _, _. split; [reflexivity|].
    unfold download_srcs, printed_paths, exists_. cbn.
    rewrite !omap_app. cbn. rewrite ?app_nil_r, lookup_insert_eq, orb_true_r.
    split_and!; try done. by exists resp.
Qed.

(** ** The errors of [fetchOnce] *)

Lemma Index_byte (s : string) (c : ascii) : Index s (String c "") = IndexByte s c.
Proof.
  induction s as [|d s IH]; [done|].
  cbn [Index IndexByte HasPrefix].
  destruct (ascii_dec c d) as [->|Hn].
  - assert (HasPrefix s "" = true) as -> by by destruct s.
    by destruct (ascii_dec d d).
  - destruct (ascii_dec d c); [congruence|]. by rewrite IH.
Qed.

Lemma srev_onto_append (a b acc : string) :
  srev_onto (a +:+ b) acc = srev_onto b (srev_onto a acc).
Proof.
  revert acc. induction a as [|c a IH]; intros acc; [done|].
  change (String c a +:+ b) with (String c (a +:+ b)). cbn. by rewrite IH.
Qed.

Lemma all_bytes_impl (p q : ascii → bool) (s : string) :
  (∀ c, p c = true → q c = true) →
  NetUrl.all_bytes p s = true → NetUrl.all_bytes q s = true.
Proof.
  intros Hpq. induction s as [|d s IH]; [done|]. cbn.
  intros [Hd Hs]%andb_true_iff. by rewrite (Hpq d Hd), IH.
Qed.

Lemma tame_not_hash_not_ctl (c : ascii) :
  tame c = true →
  c ≠ "#"%char ∧ negb ((byte_of c <? 32)%Z || (byte_of c =? 127)%Z) = true.
Proof. by destruct c as [[] [] [] [] [] [] [] []]. Qed.

(** [url.Parse] accepts the endpoint followed by a query of tame bytes. *)
Lemma request_URL_parses (t : string) :
  NetUrl.all_bytes tame t = true →
  is_Some (NetUrl.Parse (api_base +:+ "?bcnt=4&country=" +:+ t +:+ "&placement=88000820")).
Proof.
  intros Ht.
  set (u := api_base +:+ "?bcnt=4&country=" +:+ t +:+ "&placement=88000820").
  assert (IndexByte u "#" = None) as Hhash.
  { apply IndexByte_None_CountByte. unfold u. rewrite !CountByte_append.
    assert (CountByte t "#" = 0%nat) as ->; [|done].
    clear -Ht. induction t as [|d t IH]; [done|]. cbn in *.
    apply andb_true_iff in Ht as [Hd Ht]. rewrite (IH Ht).
    apply tame_not_hash_not_ctl in Hd as [Hd _].
    by destruct (ascii_dec d "#"). }
  unfold NetUrl.Parse, Cut. rewrite Index_byte, Hhash.
  assert (NetUrl.stringContainsCTLByte u = false) as Hctl.
  { unfold NetUrl.stringContainsCTLByte, u. rewrite !all_bytes_append.
    rewrite (all_bytes_impl tame _ t); [done| |done].
    intros c Hc. by apply tame_not_hash_not_ctl in Hc as [_ ?]. }
  unfold NetUrl.parse. rewrite Hctl. subst u.
  change (NetUrl.string_eqb _ "*") with false.
  change (NetUrl.getScheme _) with
    (Some ("https", "//fd.api.iris.microsoft.com/v4/api/selection?bcnt=4&country="
                    +:+ t +:+ "&placement=88000820")).
  cbv beta iota.
  assert (HasSuffix ("//fd.api.iris.microsoft.com/v4/api/selection?bcnt=4&country="
                     +:+ t +:+ "&placement=88000820") "?" = false) as ->.
  { unfold HasSuffix, srev. by rewrite !srev_onto_append. }
  cbn [andb].
  change (Cut _ "?") with
    ("//fd.api.iris.microsoft.com/v4/api/selection",
     "bcnt=4&country=" +:+ t +:+ "&placement=88000820", true).
  vm_compute. by eexists.
Qed.

Lemma buildAPIURL_parses (country locale : string) :
  is_Some (NetUrl.Parse (buildAPIURL country locale).1).
Proof.
  rewrite buildAPIURL_string.
  pose proof (request_URL_parses
                (NetUrl.QueryEscape country +:+ "&fmt=json&locale="
                 +:+ NetUrl.QueryEscape locale)) as H.
  rewrite !append_assoc in H. apply H.
  rewrite !all_bytes_append.
  rewrite !(all_bytes_impl query_safe tame (NetUrl.QueryEscape _));
    [done|..]; try apply QueryEscape_safe;
    intros c Hc; unfold tame; by rewrite Hc.
Qed.

(** X18: for every country and locale the request of [fetchOnce] can be
    made, so [fetchOnce] is decided by the answer alone: a transport error,
    a status other than 200 (the error carries the status), a body that
    does not decode, or the deduplicated descriptors.  It returns no other
    error. *)
Theorem fetchOnce_outcomes
    (dec_root : body_stream → option root) (dec_env : string → option adEnvelope)
    (net : string → do_result) (country locale : string) :
  fetchOnce dec_root dec_env net country locale
  = match net (buildAPIURL country locale).1 with
    | DoErr => Err ErrTransport
    | DoResp resp =>
        if StatusCode resp =? 200 then
          match dec_root (Body resp) with
          | None => Err ErrDecode
          | Some r => Ok (dedupe (collect dec_env (Items r)))
          end
        else Err (ErrHTTP (StatusCode resp))
    end
  ∧ ∀ e, fetchOnce dec_root dec_env net country locale = Err e →
         e = ErrTransport ∨ e = ErrDecode
         ∨ ∃ status, e = ErrHTTP status ∧ status ≠ 200.
Proof.
  assert (fetchOnce dec_root dec_env net country locale
          = match net (buildAPIURL country locale).1 with
            | DoErr => Err ErrTransport
            | DoResp resp =>
                if StatusCode resp =? 200 then
                  match dec_root (Body resp) with
                  | None => Err ErrDecode
                  | Some r => Ok (dedupe (collect dec_env (Items r)))
                  end
                else Err (ErrHTTP (StatusCode resp))
            end) as Heq.
  { destruct (buildAPIURL_parses country locale) as [pu Hpu].
    unfold fetchOnce, fetch_url, parse_response.
    destruct (buildAPIURL country locale) as [reqURL e0]. cbn [fst] in *.
    rewrite Hpu. destruct (net reqURL) as [|resp]; [done|].
    by destruct (StatusCode resp =? 200). }
  split; [exact Heq|]. rewrite Heq. intros e.
  destruct (net _) as [|resp]; [intros [= <-]; by left|].
  destruct (StatusCode resp =? 200) eqn:Hs.
  - destruct (dec_root (Body resp)); [done|]. intros [= <-]. right; by left.
  - intros [= <-]. right; right. exists (StatusCode resp). split; [done|].
    by apply Z.eqb_neq.
Qed.

(** ** The files a run touches *)

Section Files.

Variable dec_root : body_stream → option root.
Variable dec_env : string → option adEnvelope.
Variable join : string → string → string.
Variable w : world.
Variable cfg : config.
Variable fs0 : FS.

Lemma others_untouched_log e st :
  is_download_call e = false →
  others_untouched fs0 st → others_untouched fs0 (log e st).
Proof using Type.
  intros He Hinv p Hp. apply Hinv. intros d Hd. apply Hp.
  unfold download_dsts, log in *. cbn. rewrite omap_app. apply elem_of_app. by left.
Qed.

Lemma process_image_others_untouched st k im :
  others_untouched fs0 st →
  others_untouched fs0 (process_image join w cfg (st, k) im).1.
Proof using Type.
  intros Hinv. unfold process_image.
  case_bool_decide; [done|].
  destruct (NetUrl.string_eqb _ ""); [done|]. cbn [files].
  destruct (exists_ _ _ _).
  { destruct (verbose cfg); [|done]. by apply (others_untouched_log _ (Build_state _ _ _ _ _)). }
  cbn [log trace files seen emptyRounds totalNew].
  set (path := join (outDir cfg) (fileNameFromURL (URL im))).
  assert (∀ tr p, not_a_target ((trace st ++ [EvDownload (URL im) path]) ++ tr) p →
                  not_a_target (trace st) p ∧ p ≠ path ∧ p ≠ tmp_of path) as Htarget.
  { intros tr p Hp. split.
    - intros d Hd. apply Hp. unfold download_dsts in *.
      rewrite !omap_app, !elem_of_app. by left; left.
    - apply Hp. unfold download_dsts. rewrite !omap_app, !elem_of_app.
      left; right. cbn. by left. }
  pose proof (download_frame (asset_reply w (URL im)) (asset_faults w (URL im))
                (files st) (URL im) path) as Hframe.
  destruct (download _ _ _ _ _) as [fs' [e|]]; cbn [fst] in Hframe.
  - destruct (verbose cfg); cbn; intros p Hp; cbn in *.
    + apply Htarget in Hp as (Hp & ? & ?). rewrite Hframe by done. by apply Hinv.
    + rewrite <- (app_nil_r (_ ++ [_])) in Hp.
      apply Htarget in Hp as (Hp & ? & ?). rewrite Hframe by done. by apply Hinv.
  - intros p Hp. cbn in *.
    apply Htarget in Hp as (Hp & ? & ?). rewrite Hframe by done. by apply Hinv.
Qed.

Lemma process_images_others_untouched imgs : ∀ st k,
  others_untouched fs0 st →
  others_untouched fs0 (fold_left (process_image join w cfg) imgs (st, k)).1.
Proof using Type.
  induction imgs as [|im imgs IH]; intros st k Hinv; [done|].
  cbn [fold_left].
  pose proof (process_image_others_untouched st k im Hinv) as Hinv'.
  destruct (process_image join w cfg (st, k) im) as [st1 k1]. by apply IH.
Qed.

Lemma poll_loop_others_untouched fuel : ∀ r st x st' n,
  others_untouched fs0 st →
  poll_loop dec_root dec_env join w cfg fuel r st = Some (x, st', n) →
  others_untouched fs0 st'.
Proof using Type.
  induction fuel as [|fuel IH]; intros r st x st' n Hinv; cbn [poll_loop];
    destruct (emptyRounds st <? maxEmptyRounds)%nat.
  - done.
  - intros [= <- <- <-]. destruct (verbose cfg); [|done].
    by apply others_untouched_log.
  - unfold round, process_images.
    destruct (fetchOnce _ _ _ _ _) as [imgs|e]; [|by intros [= <- <- <-]].
    pose proof (process_images_others_untouched imgs (log (EvFetch r) st) O
                  (others_untouched_log (EvFetch r) st eq_refl Hinv)) as Hinv1.
    destruct (fold_left _ imgs _) as [st1 k1]. cbn [fst snd] in *.
    apply IH. unfold end_round. destruct k1; [|exact Hinv1].
    by apply (others_untouched_log EvSleep (Build_state _ _ _ _ _)).
  - intros [= <- <- <-]. destruct (verbose cfg); [|done].
    by apply others_untouched_log.
Qed.

End Files.

(** X19: however a run of [main] ends, a file that is neither the
    destination of one of the run's calls of [download] nor the temporary
    file of one is as it was when the run began: the program touches no
    other path. *)
Theorem main_touches_only_download_targets
    (dec_root : body_stream → option root) (dec_env : string → option adEnvelope)
    (join : string → string → string) (w : world) (cfg : config) fuel fs x st' n p :
  main dec_root dec_env join w cfg fuel fs = Some (x, st', n) →
  (∀ d, d ∈ download_dsts (trace st') → p ≠ d ∧ p ≠ tmp_of d) →
  files st' !! p = fs !! p.
Proof.
  intros Hm Hp.
  apply (poll_loop_others_untouched dec_root dec_env join w cfg fs fuel 0
           (initial_state fs) x st' n); [|exact Hm|exact Hp].
  by intros q _.
Qed.

Lemma main_touches_only_download_targets_witness :
  ∃ x st' n, main Demo.dec_root Demo.dec_env Demo.join Demo.online Demo.cfg 51
                  {[ "wallpaper/other.jpg" := "xyz" ]} = Some (x, st', n)
             ∧ files st' !! "wallpaper/other.jpg" = Some "xyz".
Proof.
  destruct (main Demo.dec_root Demo.dec_env Demo.join Demo.online Demo.cfg 51
                 {[ "wallpaper/other.jpg" := "xyz" ]})
    as [[[x st'] n]|] eqn:Hm; [|by vm_compute in Hm].
  exists x, st', n. split; [reflexivity|].
  rewrite (main_touches_only_download_targets _ _ _ _ _ _ _ _ _ _
             "wallpaper/other.jpg" Hm); [reflexivity|].
  intros d Hd. vm_compute in Hm. injection Hm as <- <- <-.
  vm_compute in Hd. apply list_elem_of_singleton in Hd as ->.
  split; discriminate.
Defined.

Lemma firstNonEmpty_empty_iff_witness :
  TrimSpace "  " = "" ∧ firstNonEmpty "  " " Dunes " = TrimSpace " Dunes ".
Proof.
  assert (TrimSpace "  " = "") as Hblank by reflexivity.
  split; [exact Hblank|].
  exact (proj2 (proj2 (firstNonEmpty_empty_iff "  " " Dunes ")) Hblank).
Defined.

Lemma process_image_downloads_new_file_witness :
  (URL Demo.image ∉ seen (initial_state ∅))
  ∧ fileNameFromURL (URL Demo.image) ≠ ""
  ∧ exists_ (dirs Demo.online) (files (initial_state ∅))
            (dest_path Demo.join Demo.cfg Demo.image) = false
  ∧ ∃ st' k', process_image Demo.join Demo.online Demo.cfg (initial_state ∅, 0%nat)
                            Demo.image = (st', k')
              ∧ download_srcs (trace st')
                = download_srcs (trace (initial_state ∅)) ++ [URL Demo.image].
Proof.
  assert (URL Demo.image ∉ seen (initial_state ∅)) as H1 by apply not_elem_of_empty.
  assert (fileNameFromURL (URL Demo.image) ≠ "") as H2 by (vm_compute; discriminate).
  assert (exists_ (dirs Demo.online) (files (initial_state ∅))
                  (dest_path Demo.join Demo.cfg Demo.image) = false) as H3
    by (vm_compute; reflexivity).
  split_and!; [exact H1|exact H2|exact H3|].
  destruct (process_image_downloads_new_file Demo.join Demo.online Demo.cfg
              (initial_state ∅) 0%nat Demo.image H1 H2 H3) as (st' & k' & Hp & Hs & _).
  by exists st', k'.
Defined.

Lemma fetchOnce_outcomes_witness :
  fetchOnce Demo.dec_root Demo.dec_env (λ _, DoErr) "US" "en-US" = Err ErrTransport
  ∧ (ErrTransport = ErrTransport ∨ ErrTransport = ErrDecode
     ∨ ∃ status, ErrTransport = ErrHTTP status ∧ status ≠ 200).
Proof.
  assert (fetchOnce Demo.dec_root Demo.dec_env (λ _, DoErr) "US" "en-US"
          = Err ErrTransport) as Hf by (vm_compute; reflexivity).
  split; [exact Hf|].
  exact (proj2 (fetchOnce_outcomes Demo.dec_root Demo.dec_env (λ _, DoErr) "US" "en-US")
           ErrTransport Hf).
Defined.

(** ** A run after a run *)

Lemma exists_after_download (ds : gset string) (fs : FS) (d body p : string) :
  p ≠ tmp_of d →
  exists_ ds fs p = true →
  exists_ ds (<[d := body]> (delete (tmp_of d) fs)) p = true.
Proof.
  unfold exists_. intros Hne [H|H]%orb_true_iff; apply orb_true_iff; [by left|right].
  destruct (decide (d = p)) as [->|Hd]; [by rewrite lookup_insert_eq|].
  by rewrite lookup_insert_ne, lookup_delete_ne.
Qed.

Section SecondRun.

Variable dec_root : body_stream → option root.
Variable dec_env : string → option adEnvelope.
Variable join : string → string → string.
Variable w : world.
Variable cfg : config.

(** Every download the run can make goes through. *)
Hypothesis Hok :
  ∀ u, offered dec_root dec_env w cfg u →
       download_ok (asset_reply w u) (asset_faults w u) u = true.

(** No destination is the temporary file of a destination. *)
Hypothesis Hclash :
  ∀ u u', offered dec_root dec_env w cfg u → offered dec_root dec_env w cfg u' →
          dest_of_URL join cfg u ≠ tmp_of (dest_of_URL join cfg u').

Lemma process_image_settled st k im :
  offered dec_root dec_env w cfg (URL im) →
  settled dec_root dec_env join w cfg st →
  settled dec_root dec_env join w cfg (process_image join w cfg (st, k) im).1.
Proof.
  intros Hoff Hset. unfold process_image.
  case_bool_decide as Hs; [done|].
  destruct (NetUrl.string_eqb (fileNameFromURL (URL im)) "") eqn:En.
  { apply string_eqb_true in En. cbn.
    intros u [->%elem_of_singleton|Hu]%elem_of_union; [by split; [|left]|by apply Hset]. }
  cbn [files].
  destruct (exists_ (dirs w) (files st) (join (outDir cfg) (fileNameFromURL (URL im))))
    eqn:Ex.
  { assert (settled dec_root dec_env join w cfg
              {| seen := {[URL im]} ∪ seen st; emptyRounds := emptyRounds st;
                 totalNew := totalNew st; files := files st; trace := trace st |}) as H.
    { intros u [->%elem_of_singleton|Hu]%elem_of_union; [by split; [|right]|by apply Hset]. }
    by destruct (verbose cfg). }
  cbn [log trace files seen emptyRounds totalNew].
  pose proof (proj2 (download_ok_iff (asset_reply w (URL im)) (asset_faults w (URL im))
                       (files st) (URL im)
                       (join (outDir cfg) (fileNameFromURL (URL im))))
                (Hok _ Hoff)) as Hnone.
  destruct (download _ _ _ _ _) as [fs' [e|]] eqn:Hd; cbn [snd] in Hnone; [done|].
  apply download_success_inv in Hd as (resp & _ & _ & _ & _ & ->). cbn.
  intros u [->%elem_of_singleton|Hu]%elem_of_union.
  - split; [done|]. right. unfold exists_, dest_of_URL. cbn [files].
    rewrite lookup_insert_eq. apply orb_true_r.
  - destruct (Hset u Hu) as [Hou [Hname|Hex]]; (split; [done|]); [by left|right].
    cbn [files].
    apply (exists_after_download _ _ (dest_of_URL join cfg (URL im))); [|done].
    by apply Hclash.
Qed.

Lemma process_images_settled imgs : ∀ st k,
  (∀ im, im ∈ imgs → offered dec_root dec_env w cfg (URL im)) →
  settled dec_root dec_env join w cfg st →
  settled dec_root dec_env join w cfg
          (fold_left (process_image join w cfg) imgs (st, k)).1.
Proof.
  induction imgs as [|im imgs IH]; intros st k Hoff Hset; [done|].
  cbn [fold_left].
  pose proof (process_image_settled st k im (Hoff im ltac:(by left)) Hset) as Hset'.
  destruct (process_image join w cfg (st, k) im) as [st1 k1].
  apply IH; [|done]. intros im' ?. apply Hoff. by right.
Qed.

Lemma poll_loop_settled fuel : ∀ r st x st' n,
  settled dec_root dec_env join w cfg st →
  poll_loop dec_root dec_env join w cfg fuel r st = Some (x, st', n) →
  settled dec_root dec_env join w cfg st'.
Proof.
  induction fuel as [|fuel IH]; intros r st x st' n Hset; cbn [poll_loop];
    destruct (emptyRounds st <? maxEmptyRounds)%nat.
  - done.
  - intros [= <- <- <-]. by destruct (verbose cfg).
  - unfold round, process_images.
    destruct (fetchOnce dec_root dec_env (api_reply w r) (country cfg) (locale cfg))
      as [imgs|e] eqn:Hf; [|by intros [= <- <- <-]].
    assert (settled dec_root dec_env join w cfg
              (fold_left (process_image join w cfg) imgs (log (EvFetch r) st, O)).1)
      as Hset1.
    { apply process_images_settled; [|done]. intros im Him. by exists r, imgs, im. }
    destruct (fold_left _ imgs _) as [st1 k1]. cbn [fst snd] in *.
    apply IH. unfold end_round. by destruct k1.
  - intros [= <- <- <-]. by destruct (verbose cfg).
Qed.

End SecondRun.

(** C7 as stated fails: the API offers x.jpg.part and x.jpg, and every
    download goes through.  The first run, on an empty directory, stores
    the first asset and then uses its path as the temporary file of the
    second, so that it leaves x.jpg alone behind; the second run, on what
    the first run left, downloads the first asset again. *)
Lemma second_run_downloads_again :
  ∃ st1 st2,
    main Demo.clash_root Demo.clash_env Demo.join Demo.online Demo.cfg 51 ∅
    = Some (ExitOK, st1, 51%nat)
    ∧ totalNew st1 = 2
    ∧ files st1 = {[ "wallpaper/x.jpg" := "abc" ]}
    ∧ main Demo.clash_root Demo.clash_env Demo.join Demo.online Demo.cfg 51 (files st1)
      = Some (ExitOK, st2, 51%nat)
    ∧ totalNew st2 = 1
    ∧ download_srcs (trace st2) = ["https://example.com/x.jpg.part"].
Proof.
  eexists _, _. split; [vm_compute; reflexivity|].
  split; [reflexivity|]. split; [vm_compute; reflexivity|].
  split; [vm_compute; reflexivity|]. split; reflexivity.
Qed.

(** C7, amended: a descriptor whose destination path exists, as a file or
    as a directory, is passed over without a call of [download]: the files,
    the counters and the list of download calls stay as they are.  Hence a
    run in which every descriptor the API offers has its destination on the
    disk already calls [download] not once, changes no file and counts no
    new download, and it ends normally after 50 rounds if the API answers
    every round.  A run leaves such a disk for a second run when all its
    downloads went through and no destination of it is the temporary file
    (destination plus ".part") of another: a second run that is offered
    only URLs the first run has seen then downloads nothing. *)
Theorem existing_files_are_not_downloaded
    (dec_root : body_stream → option root) (dec_env : string → option adEnvelope)
    (join : string → string → string) (w : world) (cfg : config) :
  (∀ st k im,
     exists_ (dirs w) (files st) (dest_path join cfg im) = true →
     ∃ st', process_image join w cfg (st, k) im = (st', k)
            ∧ files st' = files st ∧ totalNew st' = totalNew st
            ∧ download_calls (trace st') = download_calls (trace st))
  ∧ (∀ fs,
       all_present dec_root dec_env join w cfg fs →
       (∀ fuel x st' n,
          main dec_root dec_env join w cfg fuel fs = Some (x, st', n) →
          files st' = fs ∧ totalNew st' = 0 ∧ download_calls (trace st') = [])
       ∧ ((∀ r, ∃ imgs, fetchOnce dec_root dec_env (api_reply w r)
                                  (country cfg) (locale cfg) = Ok imgs) →
          ∀ fuel, (50 ≤ fuel)%nat →
          ∃ st', main dec_root dec_env join w cfg fuel fs = Some (ExitOK, st', 50%nat)
                 ∧ files st' = fs ∧ totalNew st' = 0
                 ∧ download_calls (trace st') = []))
  ∧ (∀ w2 fs0 fuel1 x1 st1 n1,
       (∀ u, offered dec_root dec_env w cfg u →
             download_ok (asset_reply w u) (asset_faults w u) u = true) →
       (∀ u u', offered dec_root dec_env w cfg u → offered dec_root dec_env w cfg u' →
                dest_of_URL join cfg u ≠ tmp_of (dest_of_URL join cfg u')) →
       main dec_root dec_env join w cfg fuel1 fs0 = Some (x1, st1, n1) →
       dirs w2 = dirs w →
       (∀ u, offered dec_root dec_env w2 cfg u → u ∈ seen st1) →
       all_present dec_root dec_env join w2 cfg (files st1)
       ∧ ∀ fuel2 x2 st2 n2,
           main dec_root dec_env join w2 cfg fuel2 (files st1) = Some (x2, st2, n2) →
           files st2 = files st1 ∧ totalNew st2 = 0
           ∧ download_calls (trace st2) = []).
Proof.
  split_and!.
  - apply (all_present_run_downloads_nothing dec_root dec_env).
  - apply all_present_run_downloads_nothing.
  - intros w2 fs0 fuel1 x1 st1 n1 Hok Hclash Hrun Hdirs Hsub.
    assert (settled dec_root dec_env join w cfg st1) as Hset.
    { apply (poll_loop_settled dec_root dec_env join w cfg Hok Hclash fuel1 0
               (initial_state fs0) x1 st1 n1); [|exact Hrun].
      by intros u ?%not_elem_of_empty. }
    assert (all_present dec_root dec_env join w2 cfg (files st1)) as Hall.
    { intros r imgs im Hf Him. rewrite Hdirs.
      apply (Hset (URL im)). apply Hsub. by exists r, imgs, im. }
    split; [exact Hall|]. intros fuel2 x2 st2 n2.
    by apply (proj2 (all_present_run_downloads_nothing dec_root dec_env join w2 cfg)).
Qed.

Lemma demo_offered (u : string) :
  offered Demo.dec_root Demo.dec_env Demo.online Demo.cfg u → u = Demo.asset.
Proof.
  intros (r & imgs & im & Hf & Him & <-).
  assert (fetchOnce Demo.dec_root Demo.dec_env (api_reply Demo.online r)
                    (country Demo.cfg) (locale Demo.cfg) = Ok [Demo.image]) as Hf'
    by (vm_compute; reflexivity).
  rewrite Hf' in Hf. injection Hf as <-.
  by apply list_elem_of_singleton in Him as ->.
Defined.

Lemma existing_files_are_not_downloaded_witness :
  ∃ st1,
    main Demo.dec_root Demo.dec_env Demo.join Demo.online Demo.cfg 51 ∅
    = Some (ExitOK, st1, 51%nat)
    ∧ totalNew st1 = 1
    ∧ all_present Demo.dec_root Demo.dec_env Demo.join Demo.online Demo.cfg (files st1)
    ∧ ∀ fuel2 x2 st2 n2,
        main Demo.dec_root Demo.dec_env Demo.join Demo.online Demo.cfg fuel2 (files st1)
        = Some (x2, st2, n2) →
        files st2 = files st1 ∧ totalNew st2 = 0 ∧ download_calls (trace st2) = [].
Proof.
  destruct (main Demo.dec_root Demo.dec_env Demo.join Demo.online Demo.cfg 51 ∅)
    as [[[x1 st1] n1]|] eqn:Hrun; [|by vm_compute in Hrun].
  assert (x1 = ExitOK ∧ n1 = 51%nat ∧ totalNew st1 = 1
          ∧ bool_decide (Demo.asset ∈ seen st1) = true) as (-> & -> & Htot & Hseen).
  { vm_compute in Hrun. injection Hrun as <- <- <-. by vm_compute. }
  exists st1. split; [reflexivity|]. split; [exact Htot|].
  apply (proj2 (proj2 (existing_files_are_not_downloaded
                         Demo.dec_root Demo.dec_env Demo.join Demo.online Demo.cfg))
           Demo.online ∅ 51%nat ExitOK st1 51%nat).
  - intros u ->%demo_offered. vm_compute. reflexivity.
  - intros u u' ->%demo_offered ->%demo_offered. vm_compute. discriminate.
  - exact Hrun.
  - reflexivity.
  - intros u ->%demo_offered. by apply bool_decide_eq_true in Hseen.
Defined.

(** A URL without path has the file name ".", its destination is the
    output directory itself, which exists: the descriptor is passed over
    and [download] is not called. *)
Example directory_destination_is_skipped :
  let im := {| URL := "https://example.com"; FileName := "."; Title := "";
               Copyright := "" |} in
  fileNameFromURL (URL im) = "."
  ∧ dest_path Demo.join_clean Demo.cfg im = "wallpaper"
  ∧ exists_ (dirs Demo.online) ∅ (dest_path Demo.join_clean Demo.cfg im) = true
  ∧ ∃ st', process_image Demo.join_clean Demo.online Demo.cfg
                         (initial_state ∅, 0%nat) im = (st', 0%nat)
           ∧ download_srcs (trace st') = [] ∧ files st' = ∅.
Proof.
  cbn zeta. split_and!; try (vm_compute; reflexivity).
  eexists. split; [vm_compute; reflexivity|]. by vm_compute.
Qed.
